(** * live-ov-info: the KV6 ingestion pipeline, embedded and verified

    The development follows the TypeScript sources file by file:

    - [JS]         the fragment of the JavaScript runtime the sources rely on
                   (values produced by xml2js, truthiness, property reads,
                   [Number], [Date]);
    - [Kv6]        [src/types/kv6.ts]: the message-type enum and [KV6Update];
    - [ObjectUtil] [utils/object]: [normalizeKeys];
    - [Xml2js]     how xml2js (explicitArray: false) groups child elements;
    - [Parser]     [src/core/parser.ts]: [normalizeMessage] and [parseXml];
    - [State]      [tui/state]: [VehicleStateManager];
    - [EventBus]   [src/core/event-bus.ts]: [TypedEventEmitter.emit];
    - [ApiServer]  [api/server]: [broadcastSSE];
    - [Connector]  [src/core/connector.ts]: [decodeContent];
    - [Samples]    concrete messages, events and collaborators.

    The modules [ParserFacts], [StateFacts], [DistributorFacts] and
    [ConnectorFacts] then hold the lemmas and the theorems; the modules
    [ObjectUtilFacts], [ParserMoreFacts], [StateMoreFacts],
    [DistributorMoreFacts] and [ConnectorMoreFacts] hold further facts about
    the same code: [normalizeKeys], the clean-up of the store, the opening
    of an SSE stream, and the connector's constructor and message loop. *)

From Stdlib Require Import ZArith String Ascii List Floats.
From Stdlib Require Strings.Byte.
From stdpp Require Import gmap strings list.

Local Open Scope string_scope.

(* ===================================================================== *)
(** ** The JavaScript fragment *)
(* ===================================================================== *)

Module JS.

(** What xml2js hands to the parser: text, arrays (repeated elements),
    objects (elements with children or attributes), and [undefined] for a
    property that is not there.  A text is a [string], one character per
    code unit. *)
#[warnings="-register-all"]
Inductive value : Type :=
| Undefined
| Str (s : string)
| Arr (items : list value)
| Obj (props : list (string * value)).

(** A JS number is an IEEE-754 binary64: Rocq's primitive [float]
    (with a single NaN). *)
Definition number := float.

(** Outcome of a computation that may throw. *)
Inductive exn := TypeError | Thrown (what : string).
Inductive outcome (A : Type) : Type :=
| Returns (a : A)
| Throws (e : exn).
Arguments Returns {A} a.
Arguments Throws {A} e.

(** Sequencing of computations that may throw. *)
Definition bind {A B} (m : outcome A) (k : A -> outcome B) : outcome B :=
  match m with
  | Returns a => k a
  | Throws e => Throws e
  end.

(** The result of a computation that returned. *)
Definition returned {A} (m : outcome A) : option A :=
  match m with
  | Returns a => Some a
  | Throws _ => None
  end.

(** A date made by [new Date(arg)]: the time value is never inspected by
    the parser, so a date is kept as the constructor applied to its
    argument.  (The construction itself, which may throw, is [newDate]
    below.) *)
Inductive Date := NewDate (arg : value).

(** ToBoolean on values and on numbers. *)
Definition truthy (v : value) : bool :=
  match v with
  | Undefined => false
  | Str "" => false
  | Str _ => true
  | Arr _ => true
  | Obj _ => true
  end.

Definition truthy_number (x : number) : bool :=
  negb (PrimFloat.is_zero x || PrimFloat.is_nan x).

(** Own-property lookup in an object's entries (keys are unique). *)
Fixpoint lookup_prop (k : string) (ps : list (string * value)) : option value :=
  match ps with
  | [] => None
  | (k', v) :: ps' => if String.eqb k k' then Some v else lookup_prop k ps'
  end.

(** [obj[k] = v]: replace in place, or append (property order is insertion
    order). *)
Fixpoint set_prop (k : string) (v : value) (ps : list (string * value))
  : list (string * value) :=
  match ps with
  | [] => [(k, v)]
  | (k', v') :: ps' =>
      if String.eqb k k' then (k, v) :: ps' else (k', v') :: set_prop k v ps'
  end.

(** [Object.fromEntries]: assign the entries in order. *)
Definition fromEntries (es : list (string * value)) : list (string * value) :=
  fold_left (fun o kv => set_prop (fst kv) (snd kv) o) es [].

(** The own property [k] of a value, if it has one: what
    [Object.entries] lists for an object; a text or an array has none under
    a name (indices and [length] apart, which the sources never read). *)
Definition own (v : value) (k : string) : option value :=
  match v with
  | Obj ps => lookup_prop k ps
  | _ => None
  end.

(** [v.k] / [v[k]] for a [v] that is not [undefined] and a [k] that no
    prototype defines: the sources read the names of XML elements and of
    message fields only (VV_TM_PUSH, KV6posinfo, the nine type names,
    journeynumber, rd_x, ...), none of which [Object.prototype],
    [Array.prototype] or [String.prototype] has.  The read is then the own
    property, and [undefined] without one.  For a name a prototype defines
    (constructor, toString, ...) the read is not modelled; what becomes of
    an own property of such a name is in [ToString] below. *)
Definition prop (v : value) (k : string) : value :=
  default Undefined (own v k).

(** *** Number(v) *)

Definition is_digit (c : ascii) : bool :=
  let n := nat_of_ascii c in (48 <=? n)%nat && (n <=? 57)%nat.

(** WhiteSpace and LineTerminator code units below 256. *)
Definition is_space (c : ascii) : bool :=
  let n := nat_of_ascii c in
  ((9 <=? n)%nat && (n <=? 13)%nat) || (n =? 32)%nat || (n =? 160)%nat.

Fixpoint trim_start (s : list ascii) : list ascii :=
  match s with
  | c :: s' => if is_space c then trim_start s' else s
  | [] => []
  end.

Definition trim (s : list ascii) : list ascii :=
  rev (trim_start (rev (trim_start s))).

(** Value of a digit in radix up to 16, if it is one. *)
Definition digit_value (c : ascii) : option Z :=
  let n := Z.of_nat (nat_of_ascii c) in
  if (48 <=? n)%Z && (n <=? 57)%Z then Some (n - 48)%Z
  else if (97 <=? n)%Z && (n <=? 102)%Z then Some (n - 87)%Z
  else if (65 <=? n)%Z && (n <=? 70)%Z then Some (n - 55)%Z
  else None.

(** Digits of a literal in [radix], most significant first; [None] when a
    character is not a digit of that radix. *)
Fixpoint digits_value (radix : Z) (acc : Z) (s : list ascii) : option Z :=
  match s with
  | [] => Some acc
  | c :: s' =>
      match digit_value c with
      | Some d => if (d <? radix)%Z then digits_value radix (radix * acc + d)%Z s' else None
      | None => None
      end
  end.

Fixpoint span_digits (s : list ascii) : list ascii * list ascii :=
  match s with
  | c :: s' =>
      if is_digit c then let '(ds, r) := span_digits s' in (c :: ds, r)
      else ([], s)
  | [] => ([], [])
  end.

Definition signed (neg : bool) (x : number) : number :=
  if neg then PrimFloat.opp x else x.

(** The double nearest to [m * 10^e] ([m >= 0]), ties to even. *)
Definition decimal_to_number (neg : bool) (m e : Z) : number :=
  if (m =? 0)%Z then signed neg 0%float
  else
    let nd := Z.of_nat (Decimal.nb_digits (Pos.to_uint (Z.to_pos m))) in
    if (310 <? nd + e)%Z then signed neg infinity
    else if (nd + e <? -330)%Z then signed neg 0%float
    else if (0 <=? e)%Z then
      signed neg (SF2Prim (binary_normalize prec emax (m * 10 ^ e) 0 false))
    else
      signed neg (SF2Prim (SFdiv prec emax
                             (S754_finite false (Z.to_pos m) 0)
                             (S754_finite false (Z.to_pos (10 ^ (- e))) 0))).

Definition integer_to_number (m : Z) : number :=
  SF2Prim (binary_normalize prec emax m 0 false).

Definition sign_of (s : list ascii) : bool * list ascii :=
  match s with
  | "+"%char :: r => (false, r)
  | "-"%char :: r => (true, r)
  | _ => (false, s)
  end.

Definition is_exp_char (c : ascii) : bool :=
  Ascii.eqb c "e" || Ascii.eqb c "E".

(** StrUnsignedDecimalLiteral without [Infinity]:
    digits [. digits?] exponent?  or  . digits exponent? *)
Definition unsigned_decimal (neg : bool) (s : list ascii) : number :=
  let '(ip, r1) := span_digits s in
  let '(dot, (fp, r2)) :=
    match r1 with
    | "."%char :: r => (true, span_digits r)
    | _ => (false, ([], r1))
    end in
  match ip, fp with
  | [], [] => nan
  | _, _ =>
      let mant := default 0%Z (digits_value 10 0 (ip ++ fp)) in
      let scale := (- Z.of_nat (List.length fp))%Z in
      match r2 with
      | [] => decimal_to_number neg mant scale
      | c :: r3 =>
          if is_exp_char c then
            let '(eneg, r4) := sign_of r3 in
            let '(ed, r5) := span_digits r4 in
            match ed, r5 with
            | _ :: _, [] =>
                let ev := default 0%Z (digits_value 10 0 ed) in
                decimal_to_number neg mant
                  ((if eneg then - ev else ev) + scale)%Z
            | _, _ => nan
            end
          else nan
      end
  end.

Definition radix_prefix (s : list ascii) : option (Z * list ascii) :=
  match s with
  | "0"%char :: c :: r =>
      if Ascii.eqb c "x" || Ascii.eqb c "X" then Some (16%Z, r)
      else if Ascii.eqb c "o" || Ascii.eqb c "O" then Some (8%Z, r)
      else if Ascii.eqb c "b" || Ascii.eqb c "B" then Some (2%Z, r)
      else None
  | _ => None
  end.

(** StringToNumber. *)
Definition StringToNumber (s : string) : number :=
  let t := trim (list_ascii_of_string s) in
  match t with
  | [] => 0%float
  | _ =>
      match radix_prefix t with
      | Some (radix, (_ :: _) as ds) =>
          match digits_value radix 0 ds with
          | Some m => integer_to_number m
          | None => nan
          end
      | Some (_, []) => nan
      | None =>
          let '(neg, r) := sign_of t in
          if String.eqb (string_of_list_ascii r) "Infinity" then signed neg infinity
          else unsigned_decimal neg r
      end
  end.

(** *** Conversion to a primitive

    The values converted are those [normalizeKeys] built: their objects
    inherit from [Object.prototype], their arrays from [Array.prototype],
    and no property holds a function.  OrdinaryToPrimitive asks the object
    for [valueOf] and [toString], in the order of the hint, and calls what
    is callable.  The inherited [valueOf] returns the object itself, which
    is no primitive, and an own property of that name is not callable: the
    result is that of [toString], under either hint.  The inherited
    [toString] gives "[object Object]"; an own property named toString (an
    element with a <toString> child) is not callable and shadows it: then
    nothing yields a primitive and a TypeError is thrown.  An array's
    [toString] is [join], which converts each element in turn, [undefined]
    to the empty text. *)

(** ToString(v). *)
Fixpoint ToString (v : value) : outcome string :=
  match v with
  | Undefined => Returns "undefined"
  | Str s => Returns s
  | Obj props =>
      match lookup_prop "toString" props with
      | Some _ => Throws TypeError
      | None => Returns "[object Object]"
      end
  | Arr items =>
      bind ((fix join (items : list value) : outcome (list string) :=
               match items with
               | [] => Returns []
               | item :: rest =>
                   bind match item with
                        | Undefined => Returns ""
                        | _ => ToString item
                        end
                     (fun piece =>
                        bind (join rest) (fun pieces => Returns (piece :: pieces)))
               end) items)
        (fun pieces => Returns (String.concat "," pieces))
  end.

(** ToPrimitive(v), hint number or default. *)
Definition ToPrimitive (v : value) : outcome value :=
  match v with
  | Arr _ | Obj _ => bind (ToString v) (fun s => Returns (Str s))
  | _ => Returns v
  end.

(** [Number(v)]. *)
Definition Number (v : value) : outcome number :=
  bind (ToPrimitive v)
    (fun primitive =>
       Returns match primitive with
               | Str s => StringToNumber s
               | _ => nan
               end).

(** [new Date(v)] for a [v] that is no date: the argument is converted to a
    primitive first. *)
Definition newDate (v : value) : outcome Date :=
  bind (ToPrimitive v) (fun _ => Returns (NewDate v)).

(** The conversion of [v] to a primitive does not throw. *)
Definition converts (v : value) : bool :=
  match ToString v with
  | Returns _ => true
  | Throws _ => false
  end.

(** *** Document text

    The text of a whole payload is kept as its UTF-16 code units, so that
    every decoding of a byte buffer has a representation. *)
Definition text := list N.

Definition units (s : string) : text :=
  map (fun c => N.of_nat (nat_of_ascii c)) (list_ascii_of_string s).

(** WhiteSpace and LineTerminator, as [String.prototype.trim] strips them. *)
Definition is_white_space (u : N) : bool :=
  ((9 <=? u) && (u <=? 13) || (u =? 32) || (u =? 160) || (u =? 5760)
   || (8192 <=? u) && (u <=? 8202) || (u =? 8232) || (u =? 8233)
   || (u =? 8239) || (u =? 8287) || (u =? 12288) || (u =? 65279))%N.

(** [!s || s.trim() === ""]. *)
Definition blank (s : text) : bool := forallb is_white_space s.

(** Outcome of an effectful call on a world [W]: it returns a result, or it
    throws after having changed the world so far. *)
Inductive completion (W A : Type) : Type :=
| Normal (a : A) (w : W)
| Abrupt (e : exn) (w : W).
Arguments Normal {W A} a w.
Arguments Abrupt {W A} e w.

End JS.

(** [x ← m; k] is stdpp's notation for [mbind]. *)
#[global] Instance outcome_bind : MBind JS.outcome := fun A B k m => JS.bind m k.
#[global] Instance outcome_ret : MRet JS.outcome := @JS.Returns.

(* ===================================================================== *)
(** ** src/types/kv6.ts *)
(* ===================================================================== *)

Module Kv6.
Import JS.

(** [enum KV6MessageType], in declaration order. *)
Inductive KV6MessageType :=
| ARRIVAL | DEPARTURE | ONROUTE | ONSTOP | INIT | END | DELAY | OFFROUTE | CANCEL.

#[global] Instance KV6MessageType_eq_dec : EqDecision KV6MessageType.
Proof. solve_decision. Defined.

(** The enum member's string value. *)
Definition name (t : KV6MessageType) : string :=
  match t with
  | ARRIVAL => "ARRIVAL" | DEPARTURE => "DEPARTURE" | ONROUTE => "ONROUTE"
  | ONSTOP => "ONSTOP" | INIT => "INIT" | END => "END" | DELAY => "DELAY"
  | OFFROUTE => "OFFROUTE" | CANCEL => "CANCEL"
  end.

(** [Object.values(KV6MessageType)]. *)
Definition values : list KV6MessageType :=
  [ARRIVAL; DEPARTURE; ONROUTE; ONSTOP; INIT; END; DELAY; OFFROUTE; CANCEL].

(** [interface KV6Update].  The fields the parser copies from the raw
    message hold whatever value was there ([Undefined] when the property is
    missing); an optional numeric field is [None] when it is [undefined]. *)
Record KV6Update := {
  operator : string;
  type : KV6MessageType;
  journeyNumber : value;
  vehicleNumber : value;
  lineNumber : value;
  timestamp : Date;
  stopCode : value;
  latitude : option number;
  longitude : option number;
  punctuality : option number;
  occupancy : option number;
}.

(** The occupancy scale of the specification: 0 to 5. *)
Definition within_0_5 (x : number) : bool :=
  PrimFloat.leb 0%float x && PrimFloat.leb x 5%float.

End Kv6.

(* ===================================================================== *)
(** ** utils/object: normalizeKeys *)
(* ===================================================================== *)

Module ObjectUtil.
Import JS.

(** [key.replace(/-/g, "_")]. *)
Fixpoint dash_to_underscore (key : string) : string :=
  match key with
  | EmptyString => EmptyString
  | String c rest =>
      String (if Ascii.eqb c "-" then "_"%char else c) (dash_to_underscore rest)
  end.

(** Recursively converts all object keys from dash-case to snake_case. *)
Fixpoint normalizeKeys (obj : value) : value :=
  match obj with
  | Arr items => Arr (map normalizeKeys items)
  | Obj props =>
      Obj (fromEntries
             (map (fun kv => let '(key, v) := kv in
                             (dash_to_underscore key, normalizeKeys v)) props))
  | _ => obj
  end.

(** A key without dash. *)
Definition no_dash (key : string) : bool :=
  forallb (fun c => negb (Ascii.eqb c "-")) (list_ascii_of_string key).

(** No key of the value contains a dash, at any depth. *)
Fixpoint dashless (v : value) : bool :=
  match v with
  | Arr items => forallb dashless items
  | Obj props =>
      forallb (fun kv => let '(key, x) := kv in no_dash key && dashless x) props
  | _ => true
  end.

End ObjectUtil.

(* ===================================================================== *)
(** ** xml2js with explicitArray: false

    The library builds the object of an element by assigning each merged
    attribute and then each child element, in document order, with
    [assignOrPush]: the first occurrence of a name becomes a property, a
    second one turns the property into an array, later ones are pushed. *)
(* ===================================================================== *)

Module Xml2js.
Import JS.

Definition assignOrPush (obj : list (string * value)) (key : string)
  (newValue : value) : list (string * value) :=
  match lookup_prop key obj with
  | None => set_prop key newValue obj
  | Some (Arr items) => set_prop key (Arr (items ++ [newValue])) obj
  | Some old => set_prop key (Arr [old; newValue]) obj
  end.

(** The object of an element whose attributes and children are [entries]
    (name and converted value), in document order. *)
Definition element (entries : list (string * value)) : value :=
  Obj (fold_left (fun obj e => assignOrPush obj (fst e) (snd e)) entries []).

(** The value of a child element is a text (possibly empty) or an object,
    never an array and never [undefined]. *)
Definition is_element_value (v : value) : bool :=
  match v with
  | Str _ | Obj _ => true
  | _ => false
  end.

(** The converted values of the entries called [k], in document order. *)
Definition occurrences (k : string) (entries : list (string * value))
  : list value :=
  (filter (λ e, e.1 = k) entries).*2.

(** What [assignOrPush] leaves under a name that occurred with these
    values: the value itself for one occurrence, their array for more. *)
Definition grouped (vs : list value) : option value :=
  match vs with
  | [] => None
  | [v] => Some v
  | _ => Some (Arr vs)
  end.

(** The two accepted document shapes ([explicitRoot: true]): the root is
    the KV6posinfo element itself, or a VV_TM_PUSH envelope. *)
Definition bare (kv6 : value) : value := Obj [("KV6posinfo", kv6)].
Definition enveloped (envelope : value) : value :=
  Obj [("VV_TM_PUSH", envelope)].

(** [parsed] is a document whose KV6posinfo element, at the root or in the
    envelope, was converted to [kv6]. *)
Definition holds (parsed kv6 : value) : Prop :=
  parsed = bare kv6
  \/ exists envelope,
       parsed = enveloped envelope /\ prop envelope "KV6posinfo" = kv6.

End Xml2js.

(* ===================================================================== *)
(** ** src/core/parser.ts *)
(* ===================================================================== *)

Module Parser.
Import JS Kv6 ObjectUtil.

(** What [convertRdToWgs84] returns: a position, or [{ error }]. *)
Inductive conversion :=
| Position (lat lon : number)
| ConversionError (message : string).

(** [v !== undefined]. *)
Definition defined (v : value) : bool :=
  match v with
  | Undefined => false
  | _ => true
  end.

(** [c ? Number(c) : undefined]. *)
Definition coerce_if_truthy (c : value) : outcome (option number) :=
  if truthy c then x ← Number c; Returns (Some x) else Returns None.

(** [{ ...base, latitude, longitude, occupancy }]. *)
Definition with_position (base : KV6Update) (lat lon : number)
  (occ : option number) : KV6Update :=
  {| operator := operator base;
     type := type base;
     journeyNumber := journeyNumber base;
     vehicleNumber := vehicleNumber base;
     lineNumber := lineNumber base;
     timestamp := timestamp base;
     stopCode := stopCode base;
     punctuality := punctuality base;
     latitude := Some lat;
     longitude := Some lon;
     occupancy := occ |}.

Section WithCollaborators.

(** [convertRdToWgs84] of utils/coordinates: a total function that reports
    failure through its result.  The parser is verified for every such
    function. *)
Variable convertRdToWgs84 : number -> number -> conversion.

(** [xmlParser.parseStringPromise]: the parsed document, or a rejection. *)
Variable parseStringPromise : text -> outcome value.

(** The [base] object of [normalizeMessage]; its properties are evaluated
    in the order they are written, [new Date] and [Number] among them. *)
Definition base (rawMessage : value) (type : KV6MessageType)
  (operator : string) : outcome KV6Update :=
  timestamp ← newDate (prop rawMessage "timestamp");
  punctuality ← coerce_if_truthy (prop rawMessage "punctuality");
  Returns {| operator := operator;
             type := type;
             journeyNumber := prop rawMessage "journeynumber";
             vehicleNumber := prop rawMessage "vehiclenumber";
             lineNumber := prop rawMessage "lineplanningnumber";
             timestamp := timestamp;
             stopCode := prop rawMessage "userstopcode";
             punctuality := punctuality;
             latitude := None;
             longitude := None;
             occupancy := None |}.

(** Normalize raw message to consistent output format.  Every read is a
    property of [rawMessage] itself, so the first one throws when
    [rawMessage] is [undefined]; [new Date], [Number] and the template
    literal of the error log throw when what they convert yields no
    primitive. *)
Definition normalizeMessage (rawMessage : value) (type : KV6MessageType)
  (operator : string) : outcome KV6Update :=
  match rawMessage with
  | Undefined => Throws TypeError
  | _ =>
      base ← base rawMessage type operator;
      if defined (prop rawMessage "rd_x") && defined (prop rawMessage "rd_y")
      then
        x ← Number (prop rawMessage "rd_x");
        y ← Number (prop rawMessage "rd_y");
        match convertRdToWgs84 x y with
        | ConversionError _ =>
            _ ← ToString (prop rawMessage "vehiclenumber");
            Returns base
        | Position lat lon =>
            occupancy ← coerce_if_truthy (prop rawMessage "occupancy");
            Returns (with_position base lat lon occupancy)
        end
      else Returns base
  end.

(** [Array.isArray(kv6[type]) ? kv6[type] : [kv6[type]]]. *)
Definition messages (v : value) : list value :=
  match v with
  | Arr items => items
  | _ => [v]
  end.

(** The inner loop: [for (const msg of messages) results.push(...)]. *)
Fixpoint forMessages (msgs : list value) (type : KV6MessageType)
  (operator : string) (results : list KV6Update) : outcome (list KV6Update) :=
  match msgs with
  | [] => Returns results
  | msg :: rest =>
      e ← normalizeMessage (normalizeKeys msg) type operator;
      forMessages rest type operator (results ++ [e])
  end.

(** The outer loop: [for (const type of Object.values(KV6MessageType))]. *)
Fixpoint forTypes (types : list KV6MessageType) (kv6 : value)
  (operator : string) (results : list KV6Update) : outcome (list KV6Update) :=
  match types with
  | [] => Returns results
  | type :: rest =>
      if truthy (prop kv6 (name type)) then
        results' ← forMessages (messages (prop kv6 (name type))) type operator results;
        forTypes rest kv6 operator results'
      else forTypes rest kv6 operator results
  end.

(** [parsed.VV_TM_PUSH?.KV6posinfo], else [parsed.KV6posinfo], else none. *)
Definition select (parsed : value) : outcome (option value) :=
  match parsed with
  | Undefined => Throws TypeError
  | _ =>
      let pushed :=
        match prop parsed "VV_TM_PUSH" with
        | Undefined => Undefined
        | envelope => prop envelope "KV6posinfo"
        end in
      if truthy pushed then Returns (Some pushed)
      else if truthy (prop parsed "KV6posinfo")
           then Returns (Some (prop parsed "KV6posinfo"))
           else Returns None
  end.

(** The body of the [try] once the document is parsed. *)
Definition collect (parsed : value) (operator : string)
  : outcome (list KV6Update) :=
  kv6 ← select parsed;
  match kv6 with
  | None => Returns []
  | Some kv6 => forTypes values kv6 operator []
  end.

(** Parse KV6 XML content and return structured messages: an exception
    anywhere in the body is caught and yields no event. *)
Definition parseXml (xmlContent : text) (operator : string)
  : list KV6Update :=
  let attempt :=
    if blank xmlContent then Returns []
    else parsed ← parseStringPromise xmlContent; collect parsed operator in
  match attempt with
  | Returns results => results
  | Throws _ => []
  end.

(** *** Reading the result against the document *)

(** The message makes no conversion throw: [normalizeMessage] returns. *)
Definition normalizes (m : value) (type : KV6MessageType) (operator : string)
  : bool :=
  match normalizeMessage (normalizeKeys m) type operator with
  | Returns _ => true
  | Throws _ => false
  end.

(** The events of the messages [msgs] of one type. *)
Definition events (msgs : list value) (type : KV6MessageType)
  (operator : string) : list KV6Update :=
  omap (fun m => returned (normalizeMessage (normalizeKeys m) type operator))
       msgs.

(** The events of the recognized elements, grouped by type in the order of
    the enum and, within a type, in document order. *)
Definition grouped_by_type (types : list KV6MessageType)
  (entries : list (string * value)) (operator : string) : list KV6Update :=
  concat (map (fun ty => events (Xml2js.occurrences (name ty) entries)
                                ty operator) types).

(** The elements of a type that the loop processes: all its occurrences,
    unless what xml2js left under the name is falsy. *)
Definition processed (type : KV6MessageType) (entries : list (string * value))
  : list value :=
  let vs := Xml2js.occurrences (name type) entries in
  if truthy (default Undefined (Xml2js.grouped vs)) then vs else [].

Definition events_of (types : list KV6MessageType)
  (entries : list (string * value)) (operator : string) : list KV6Update :=
  concat (map (fun ty => events (processed ty entries) ty operator) types).

(** No message the loop processes makes a conversion throw. *)
Definition payload_converts (types : list KV6MessageType)
  (entries : list (string * value)) (operator : string) : bool :=
  forallb (fun ty => forallb (fun m => normalizes m ty operator)
                             (processed ty entries)) types.

(** The reading of the specification: one event per element whose name is
    a known type, in document order. *)
Definition in_document_order (entries : list (string * value))
  (operator : string) : list KV6Update :=
  omap (fun e => match List.find (fun t => String.eqb e.1 (name t)) values with
                 | Some ty =>
                     returned (normalizeMessage (normalizeKeys e.2) ty operator)
                 | None => None
                 end) entries.

End WithCollaborators.

(** A tag name of the fixed known event-type set. *)
Definition recognized (n : string) : Prop := n ∈ name <$> values.

End Parser.

(* ===================================================================== *)
(** ** tui/state: VehicleStateManager *)
(* ===================================================================== *)

Module State.
Import JS.

(** [interface VehicleState]. *)
Record VehicleState := {
  vehicleNumber : value;
  lineNumber : value;
  lineName : value;
  status : Kv6.KV6MessageType;
  stopCode : value;
  stopName : value;
  latitude : option number;
  longitude : option number;
  occupancy : option number;
  lastUpdated : Date;
  punctuality : option number;
}.

(** [Map<string, VehicleState>]: entries in insertion order.  Keys are
    compared as [Map] does (SameValueZero): texts by content; arrays and
    objects by reference.  The values of the model carry no reference, and
    [same_key] takes no two arrays or objects to be the same one: the store
    is modelled for the keys its type declares, texts.  What is proved
    about finding a key again is stated for a vehicle number that is a
    text; for an array or an object (an element with children, where a
    text was expected) [Map_get] finds nothing in the model, although the
    code would find the very same object again. *)
Definition Map := list (value * VehicleState).

Definition same_key (a b : value) : bool :=
  match a, b with
  | Undefined, Undefined => true
  | Str s, Str t => String.eqb s t
  | _, _ => false
  end.

Fixpoint Map_get (k : value) (m : Map) : option VehicleState :=
  match m with
  | [] => None
  | (k', v) :: m' => if same_key k k' then Some v else Map_get k m'
  end.

Fixpoint Map_set (k : value) (v : VehicleState) (m : Map) : Map :=
  match m with
  | [] => [(k, v)]
  | (k', v') :: m' =>
      if same_key k k' then (k', v) :: m' else (k', v') :: Map_set k v m'
  end.

Definition Map_size (m : Map) : nat := length m.
Definition Map_values (m : Map) : list VehicleState := map snd m.

(** [a || b] on values. *)
Definition or_else (a b : value) : value := if truthy a then a else b.

(** [...(x && { f: x })] for a numeric field: the field is written when [x]
    is truthy (defined, not zero, not NaN). *)
Definition spread_if_truthy (x old : option number) : option number :=
  match x with
  | Some n => if truthy_number n then Some n else old
  | None => old
  end.

(** [...(x !== undefined && { f: x })]. *)
Definition spread_if_defined (x old : option number) : option number :=
  match x with
  | Some n => Some n
  | None => old
  end.

(** The state created for a vehicle seen for the first time. *)
Definition seed (update : Kv6.KV6Update) : VehicleState :=
  {| vehicleNumber := Kv6.vehicleNumber update;
     lineNumber := or_else (Kv6.lineNumber update) (Str "Unknown");
     lineName := Undefined;
     status := Kv6.type update;
     stopCode := Undefined;
     stopName := Undefined;
     latitude := None;
     longitude := None;
     occupancy := None;
     lastUpdated := Kv6.timestamp update;
     punctuality := None |}.

(** [newState]: the existing state with the update spread over it. *)
Definition merge (existingState : VehicleState) (update : Kv6.KV6Update)
  : VehicleState :=
  {| vehicleNumber := vehicleNumber existingState;
     lineName := lineName existingState;
     stopName := stopName existingState;
     status := Kv6.type update;
     lastUpdated := Kv6.timestamp update;
     lineNumber := or_else (Kv6.lineNumber update) (lineNumber existingState);
     stopCode := if truthy (Kv6.stopCode update) then Kv6.stopCode update
                 else stopCode existingState;
     latitude := spread_if_truthy (Kv6.latitude update) (latitude existingState);
     longitude := spread_if_truthy (Kv6.longitude update) (longitude existingState);
     occupancy := spread_if_defined (Kv6.occupancy update) (occupancy existingState);
     punctuality := spread_if_defined (Kv6.punctuality update) (punctuality existingState) |}.

(** Update vehicle state based on incoming KV6 message. *)
Definition updateVehicle (update : Kv6.KV6Update) (vehicles : Map) : Map :=
  let vehicleNumber := Kv6.vehicleNumber update in
  if negb (truthy vehicleNumber) then vehicles
  else
    let existingState :=
      match Map_get vehicleNumber vehicles with
      | Some state => state
      | None => seed update
      end in
    Map_set vehicleNumber (merge existingState update) vehicles.

(** [counts[k] = (counts[k] || 0) + 1]. *)
Definition bump (k : string) (counts : gmap string nat) : gmap string nat :=
  <[k := default 0 (counts !! k) + 1]> counts.

(** The statuses considered "active". *)
Definition isActive (s : Kv6.KV6MessageType) : bool :=
  bool_decide (s ∈ [Kv6.ARRIVAL; Kv6.DEPARTURE; Kv6.ONROUTE; Kv6.ONSTOP]).

(** One turn of the loop of [getStatusCounts]. *)
Definition countVehicle (counts : gmap string nat) (vehicle : VehicleState)
  : gmap string nat :=
  if negb (truthy (Str (Kv6.name (status vehicle)))) then counts
  else
    let counts :=
      if isActive (status vehicle) then bump "active" counts else counts in
    bump (Kv6.name (status vehicle)) counts.

(** Get the count of vehicles by status. *)
Definition getStatusCounts (vehicles : Map) : gmap string nat :=
  fold_left countVehicle (Map_values vehicles)
    (<["active" := 0]> {["total" := Map_size vehicles]}).

(** No key of the map is one of the later keys. *)
Fixpoint distinct (m : Map) : Prop :=
  match m with
  | [] => True
  | (k, _) :: m' => Map_get k m' = None /\ distinct m'
  end.

(** *** cleanupStaleVehicles *)

Section Clock.

(** [Date.prototype.getTime]: the time value of a date in milliseconds, NaN
    for an Invalid Date.  (How [new Date] reads its argument is not
    modelled.) *)
Variable getTime : Date -> number.

(** [(now.getTime() - state.lastUpdated.getTime()) / (1000 * 60)]. *)
Definition ageMinutes (now : number) (state : VehicleState) : number :=
  ((now - getTime (lastUpdated state)) / (1000 * 60))%float.

(** [ageMinutes > maxAgeMinutes]. *)
Definition stale (now maxAgeMinutes : number) (state : VehicleState) : bool :=
  PrimFloat.ltb maxAgeMinutes (ageMinutes now state).

(** Remove vehicles that haven't been updated in a while.  [now] is the time
    value of [new Date()].  The loop visits every entry once, and the key it
    hands to [delete] is the entry's own: that entry goes and no other.  (A
    state and its [lastUpdated] are objects, hence truthy: no entry is
    skipped.) *)
Definition cleanupStaleVehicles (now maxAgeMinutes : number) (vehicles : Map)
  : Map :=
  filter (fun entry => stale now maxAgeMinutes entry.2 = false) vehicles.

(** The stores the manager can be in: it starts empty, and only
    [updateVehicle] and [cleanupStaleVehicles] write to it. *)
Inductive reachable : Map -> Prop :=
| reachable_new : reachable []
| reachable_update update vehicles :
    reachable vehicles -> reachable (updateVehicle update vehicles)
| reachable_cleanup now maxAgeMinutes vehicles :
    reachable vehicles ->
    reachable (cleanupStaleVehicles now maxAgeMinutes vehicles).

End Clock.

(** A vehicle number that is not an array or an object: a text, or
    missing. *)
Definition textual (v : value) : bool :=
  match v with
  | Arr _ | Obj _ => false
  | _ => true
  end.

End State.

(* ===================================================================== *)
(** ** src/core/event-bus.ts: TypedEventEmitter over Node's EventEmitter *)
(* ===================================================================== *)

Module EventBus.
Import JS.

Inductive EventName := KV6_UPDATE | CONNECTION_ERROR | CONNECTION_STATUS.

#[global] Instance EventName_eq_dec : EqDecision EventName.
Proof. solve_decision. Defined.

Section Emitter.
Context {Data World : Type}.

(** A listener acts on the world and may throw. *)
Definition listener := Data -> World -> completion World unit.

(** The emitter: per event, its listeners in registration order. *)
Definition TypedEventEmitter := EventName -> list listener.

(** [on]: the listener is added at the end of the event's array. *)
Definition on (event : EventName) (l : listener) (bus : TypedEventEmitter)
  : TypedEventEmitter :=
  fun e => if decide (e = event) then (bus e ++ [l])%list else bus e.

(** [EventEmitter.emit] calls the listeners in order, synchronously, with
    no handler around the calls: what a listener throws leaves [emit]. *)
Fixpoint callListeners (ls : list listener) (data : Data) (w : World)
  : completion World unit :=
  match ls with
  | [] => Normal tt w
  | l :: rest =>
      match l data w with
      | Normal _ w' => callListeners rest data w'
      | Abrupt e w' => Abrupt e w'
      end
  end.

(** [emit] returns whether the event had listeners. *)
Definition emit (event : EventName) (data : Data) (bus : TypedEventEmitter)
  (w : World) : completion World bool :=
  match callListeners (bus event) data w with
  | Normal _ w' => Normal (match bus event with [] => false | _ => true end) w'
  | Abrupt e w' => Abrupt e w'
  end.

End Emitter.
End EventBus.

(* ===================================================================== *)
(** ** api/server: APIServer.broadcastSSE *)
(* ===================================================================== *)

Module ApiServer.
Import JS.

(** What the sinks have been sent so far: (client, chunk), oldest first. *)
Definition transcript := list (nat * string).

(** An SSE client ([express.Response]).  [write] appends the chunk to what
    the client has been sent, or throws; [throws] tells which, from what was
    sent so far and the chunk. *)
Record client := {
  cid : nat;
  throws : transcript -> string -> bool;
}.

Definition write (c : client) (chunk : string) (w : transcript)
  : completion transcript unit :=
  if throws c w chunk then Abrupt (Thrown "write") w
  else Normal tt (w ++ [(cid c, chunk)])%list.

(** The message handed to [broadcastSSE]: its [type] and the result of
    [JSON.stringify(message.data)], which may throw. *)
Record message := {
  mtype : string;
  stringify : outcome string;
}.

(** The body of the [try] for one client. *)
Definition send (c : client) (m : message) (w : transcript)
  : completion transcript unit :=
  let first :=
    if truthy (Str (mtype m))
    then write c ("event: " ++ mtype m ++ String "010" "") w
    else Normal tt w in
  match first with
  | Abrupt e w' => Abrupt e w'
  | Normal _ w' =>
      match stringify m with
      | Throws e => Abrupt e w'
      | Returns data =>
          write c ("data: " ++ data ++ String "010" (String "010" "")) w'
      end
  end.

(** The chunks one broadcast writes to a client. *)
Definition chunks (m : message) (data : string) : list string :=
  ((if truthy (Str (mtype m))
    then [("event: " ++ mtype m ++ String "010" "")%string] else [])
   ++ [("data: " ++ data ++ String "010" (String "010" ""))%string])%list.

(** The loop over [this.sseClients]: a client whose [try] throws is put on
    [disconnectedClients]; the loop goes on. *)
Fixpoint forClients (clients : list client) (m : message) (w : transcript)
  (disconnectedClients : list nat) : transcript * list nat :=
  match clients with
  | [] => (w, disconnectedClients)
  | c :: rest =>
      match send c m w with
      | Normal _ w' => forClients rest m w' disconnectedClients
      | Abrupt _ w' => forClients rest m w' (disconnectedClients ++ [cid c])%list
      end
  end.

(** [this.sseClients.delete(client)] for each disconnected client. *)
Definition deleteAll (disconnected : list nat) (clients : list client)
  : list client :=
  filter (fun c => cid c ∉ disconnected) clients.

(** [broadcastSSE]: the transcript afterwards and the remaining clients. *)
Definition broadcastSSE (sseClients : list client) (m : message)
  (w : transcript) : transcript * list client :=
  match sseClients with
  | [] => (w, sseClients)
  | _ =>
      let '(w', disconnectedClients) := forClients sseClients m w [] in
      (w', deleteAll disconnectedClients sseClients)
  end.

(** [this.sseClients.add(res)]: a set holds a response once. *)
Definition add (c : client) (clients : list client) : list client :=
  if bool_decide (cid c ∈ cid <$> clients) then clients
  else (clients ++ [c])%list.

(** [sendSSEMessage]: the same two writes to one client; when one of them
    or the serialisation throws, the client is deleted from the set. *)
Definition sendSSEMessage (c : client) (m : message) (clients : list client)
  (w : transcript) : transcript * list client :=
  match send c m w with
  | Normal _ w' => (w', clients)
  | Abrupt _ w' => (w', deleteAll [cid c] clients)
  end.

(** The two opening messages of a stream, around the result of
    [JSON.stringify] on their data. *)
Definition connected (data : outcome string) : message :=
  {| mtype := "connected"; stringify := data |}.
Definition initial_data (data : outcome string) : message :=
  {| mtype := "initial_data"; stringify := data |}.

(** The handler of /api/stream once the headers are written: the response
    is added to the set, then sent the "connected" message and the
    "initial_data" message.  (The headers are not part of the transcript.) *)
Definition stream (c : client) (welcome vehicles : outcome string)
  (clients : list client) (w : transcript) : transcript * list client :=
  let clients := add c clients in
  let '(w, clients) := sendSSEMessage c (connected welcome) clients w in
  sendSSEMessage c (initial_data vehicles) clients w.

End ApiServer.

(* ===================================================================== *)
(** ** src/core/connector.ts: NDOVConnector.decodeContent *)
(* ===================================================================== *)

Module Connector.
Import JS.

Definition Buffer := list Byte.byte.

(** [buffer.toString('latin1')]: one code unit per byte.  (No bound on the
    length of a string is modelled.) *)
Definition latin1 (buffer : Buffer) : text := map Byte.to_N buffer.

(** [buffer.toString('ascii')]: the high bit of every byte is cleared. *)
Definition ascii7 (buffer : Buffer) : text :=
  map (fun b => N.land (Byte.to_N b) 127) buffer.

(** [header[i] === n]: false when the buffer is too short. *)
Definition byte_is (buffer : Buffer) (i : nat) (n : N) : bool :=
  match buffer !! i with
  | Some b => (Byte.to_N b =? n)%N
  | None => false
  end.

Fixpoint starts_with (m s : text) : bool :=
  match m, s with
  | [], _ => true
  | a :: m', b :: s' => (a =? b)%N && starts_with m' s'
  | _ :: _, [] => false
  end.

(** [s.includes(m)]. *)
Fixpoint includes (m s : text) : bool :=
  starts_with m s ||
  match s with
  | [] => false
  | _ :: s' => includes m s'
  end.

(** [s.indexOf(m)]: the first position where [m] occurs, or -1. *)
Fixpoint indexOf (m s : text) : Z :=
  if starts_with m s then 0%Z
  else
    match s with
    | [] => (-1)%Z
    | _ :: s' => let i := indexOf m s' in if (i <? 0)%Z then (-1)%Z else (i + 1)%Z
    end.

(** [s.substring(start)]. *)
Definition substring (start : Z) (s : text) : text :=
  drop (Z.to_nat (Z.max 0 start)) s.

(** The recognized root-element markers. *)
Definition markers : list text :=
  [units "<?xml"; units "<VV_TM_PUSH"; units "<KV6posinfo"].

(** [d.includes('<?xml') || d.includes('<VV_TM_PUSH') || d.includes('<KV6posinfo')]. *)
Definition looksLikeXml (decoded : text) : bool :=
  includes (units "<?xml") decoded
  || includes (units "<VV_TM_PUSH") decoded
  || includes (units "<KV6posinfo") decoded.

(** The fallback stage on [latin1Str = buffer.toString('latin1')]. *)
Definition xmlStartIndex (latin1Str : text) : Z :=
  Z.max (Z.max (indexOf (units "<?xml") latin1Str)
               (indexOf (units "<VV_TM_PUSH") latin1Str))
        (indexOf (units "<KV6posinfo") latin1Str).

Definition fallback (latin1Str : text) : text :=
  if (0 <=? xmlStartIndex latin1Str)%Z
  then substring (xmlStartIndex latin1Str) latin1Str
  else latin1Str.


Section Decoder.

(** [zlib.gunzip] and [zlib.inflate], promisified: the inflated bytes, or a
    rejection.  [buffer.toString('utf8')] never throws. *)
Variable gunzipAsync inflateAsync : Buffer -> outcome Buffer.
Variable utf8 : Buffer -> text.

(** The blind inflate attempt, with its own [try]: the decoded text when it
    looks like XML. *)
Definition blindInflate (buffer : Buffer) : option text :=
  match inflateAsync buffer with
  | Returns decompressed =>
      if looksLikeXml (utf8 decompressed) then Some (utf8 decompressed) else None
  | Throws _ => None
  end.

(** [for (const encoding of ['utf8', 'latin1', 'ascii'])]. *)
Definition tryEncodings (buffer : Buffer) : option text :=
  List.find looksLikeXml [utf8 buffer; latin1 buffer; ascii7 buffer].

(** How far down the ordered strategy a buffer gets. *)
Inductive stage := Gzip | Zlib | BlindInflate | Encodings | Fallback.

Definition stage_of (buffer : Buffer) : stage :=
  if byte_is buffer 0 31 && byte_is buffer 1 139 then Gzip
  else if byte_is buffer 0 120
          && (byte_is buffer 1 1 || byte_is buffer 1 156 || byte_is buffer 1 218)
  then Zlib
  else match blindInflate buffer with
       | Some _ => BlindInflate
       | None =>
           match tryEncodings buffer with
           | Some _ => Encodings
           | None => Fallback
           end
       end.

(** The body of the outer [try]. *)
Definition decodeBody (buffer : Buffer) : outcome text :=
  if byte_is buffer 0 31 && byte_is buffer 1 139 then
    decompressed ← gunzipAsync buffer; Returns (utf8 decompressed)
  else if byte_is buffer 0 120
          && (byte_is buffer 1 1 || byte_is buffer 1 156 || byte_is buffer 1 218)
  then
    decompressed ← inflateAsync buffer; Returns (utf8 decompressed)
  else
    match blindInflate buffer with
    | Some decoded => Returns decoded
    | None =>
        match tryEncodings buffer with
        | Some decoded => Returns decoded
        | None => Returns (fallback (latin1 buffer))
        end
    end.

(** Try different methods to decode binary content to readable XML; the
    [catch] falls back to latin1. *)
Definition decodeContent (buffer : Buffer) : outcome text :=
  match decodeBody buffer with
  | Returns decoded => Returns decoded
  | Throws _ => Returns (latin1 buffer)
  end.

End Decoder.
(** *** The constructor: the operator of a topic *)

(** [s.split(sep)] for a separator of one character: the pieces between the
    separators, one more than there are separators. *)
Fixpoint split (sep : ascii) (s : string) : list string :=
  match s with
  | EmptyString => [EmptyString]
  | String c rest =>
      if Ascii.eqb c sep then EmptyString :: split sep rest
      else match split sep rest with
           | piece :: pieces => String c piece :: pieces
           | [] => [String c EmptyString]
           end
  end.

(** [topic.split('/')[1] || 'ARR']. *)
Definition operatorOf (topic : string) : string :=
  match split "/" topic !! 1%nat with
  | Some piece => if truthy (Str piece) then piece else "ARR"
  | None => "ARR"
  end.

(** A text without slash. *)
Definition no_slash (s : string) : bool :=
  forallb (fun c => negb (Ascii.eqb c "/")) (list_ascii_of_string s).

(** *** processMessages *)

(** What the bus carries: the payload of each of the three events. *)
Inductive payload :=
| Update (update : Kv6.KV6Update)
| Failure (error : exn)
| Status (connected : bool) (topic : string).

Section Loop.

Variable gunzipAsync inflateAsync : Buffer -> outcome Buffer.
Variable utf8 : Buffer -> text.
Variable convertRdToWgs84 : number -> number -> Parser.conversion.
Variable parseStringPromise : text -> outcome value.
Context {World : Type}.
Variable eventBus : @EventBus.TypedEventEmitter payload World.

(** [for (const message of messages) eventBus.emit(EventName.KV6_UPDATE, message)]. *)
Fixpoint emitEach (messages : list Kv6.KV6Update) (w : World)
  : completion World unit :=
  match messages with
  | [] => Normal tt w
  | message :: rest =>
      match EventBus.emit EventBus.KV6_UPDATE (Update message) eventBus w with
      | Normal _ w' => emitEach rest w'
      | Abrupt e w' => Abrupt e w'
      end
  end.

(** The body of the inner [try] for what [subscriber.receive()] gave: the
    frame is skipped when its topic is not the connector's, else decoded,
    parsed, and its events emitted one by one. *)
Definition processFrame (topic operator : string)
  (received : outcome (Buffer * Buffer)) (w : World) : completion World unit :=
  match received with
  | Throws e => Abrupt e w
  | Returns (topicBuffer, contentBuffer) =>
      if negb (bool_decide (utf8 topicBuffer = units topic)) then Normal tt w
      else
        match decodeContent gunzipAsync inflateAsync utf8 contentBuffer with
        | Throws e => Abrupt e w
        | Returns contentStr =>
            emitEach (Parser.parseXml convertRdToWgs84 parseStringPromise
                        contentStr operator) w
        end
  end.

(** One turn of the loop: what the inner [try] throws is logged, and the
    loop goes on from the world as it is then. *)
Definition turn (topic operator : string)
  (received : outcome (Buffer * Buffer)) (w : World) : World :=
  match processFrame topic operator received w with
  | Normal _ w' => w'
  | Abrupt _ w' => w'
  end.

End Loop.

(** The two subscribers of the terminal application, on the store: the
    state manager's and the terminal view's; each hands the update to
    [updateVehicle], which does not throw. *)
Definition storeListener : @EventBus.listener payload State.Map :=
  fun data vehicles =>
    match data with
    | Update update => Normal tt (State.updateVehicle update vehicles)
    | _ => Normal tt vehicles
    end.

Definition terminalBus : @EventBus.TypedEventEmitter payload State.Map :=
  EventBus.on EventBus.KV6_UPDATE storeListener
    (EventBus.on EventBus.KV6_UPDATE storeListener (fun _ => [])).

End Connector.

(* ===================================================================== *)
(** ** Concrete collaborators, to run the pipeline on examples *)
(* ===================================================================== *)

Module Samples.
Import JS Kv6 Parser Xml2js.

(** Modelled from the spec: the Coordinate Transformer (utils/coordinates,
    [convertRdToWgs84]) is not among the sources.  The specification fixes
    two of its results: the projection's origin converts to the reference
    position, and a pair far outside the domain is a domain error.
    [referenceConverter] has these two results and reports an error for
    every other pair; it is used on the origin and on a far-away pair only.
    The theorems are proved for every converter. *)
#[warnings="-inexact-float"]
Definition referenceConverter (x y : number) : conversion :=
  if PrimFloat.eqb x 155000%float && PrimFloat.eqb y 463000%float
  then Position 52.15517440%float 5.38720621%float
  else ConversionError "outside the domain of the projection".

(** xml2js on one document: it resolves with [parsed] for the text [xml],
    and rejects any other text.  (How xml2js reads a text is not modelled;
    [parsed] is what it makes of [xml] under the options of the parser.) *)
Definition resolves (xml : string) (parsed : value) : text -> outcome value :=
  fun t => if decide (t = units xml) then Returns parsed
           else Throws (Thrown "not the sample document").

(** The text of a push message around the elements [inner], and the object
    of its envelope. *)
Definition pushText (inner : string) : string :=
  "<VV_TM_PUSH xmlns='http://bison.connekt.nl/tmi8/kv6/msg'>"
  ++ "<SubscriberID>ndov</SubscriberID><Version>BISON 8.1.0.0</Version>"
  ++ "<DossierName>KV6posinfo</DossierName>"
  ++ "<Timestamp>2025-01-01T12:00:00+01:00</Timestamp>"
  ++ "<KV6posinfo>" ++ inner ++ "</KV6posinfo></VV_TM_PUSH>".

Definition pushEnvelope (entries : list (string * value)) : value :=
  element [("xmlns", Str "http://bison.connekt.nl/tmi8/kv6/msg");
           ("SubscriberID", Str "ndov");
           ("Version", Str "BISON 8.1.0.0");
           ("DossierName", Str "KV6posinfo");
           ("Timestamp", Str "2025-01-01T12:00:00+01:00");
           ("KV6posinfo", element entries)].

Definition pushed (inner : string) (entries : list (string * value))
  : text -> outcome value :=
  resolves (pushText inner) (enveloped (pushEnvelope entries)).

(** The same without envelope. *)
Definition bareText (inner : string) : string :=
  "<KV6posinfo>" ++ inner ++ "</KV6posinfo>".

Definition unwrapped (inner : string) (entries : list (string * value))
  : text -> outcome value :=
  resolves (bareText inner) (bare (element entries)).

(** A message at the projection's origin with an occupancy of 6 and a
    punctuality that is not a number. *)
Definition atOriginText : string :=
  "<ARRIVAL><vehiclenumber>1001</vehiclenumber><rd-x>155000</rd-x>"
  ++ "<rd-y>463000</rd-y><occupancy>6</occupancy>"
  ++ "<punctuality>abc</punctuality></ARRIVAL>".

Definition atOrigin : value :=
  Obj [("vehiclenumber", Str "1001"); ("rd-x", Str "155000");
       ("rd-y", Str "463000"); ("occupancy", Str "6");
       ("punctuality", Str "abc")].

(** A message far outside the projection's domain, with an occupancy. *)
Definition farAwayText : string :=
  "<ONROUTE><vehiclenumber>2002</vehiclenumber><rd-x>99999999</rd-x>"
  ++ "<rd-y>99999999</rd-y><occupancy>3</occupancy></ONROUTE>".

Definition farAway : value :=
  Obj [("vehiclenumber", Str "2002"); ("rd-x", Str "99999999");
       ("rd-y", Str "99999999"); ("occupancy", Str "3")].

(** A DEPARTURE followed by an ARRIVAL. *)
Definition departureThenArrivalText : string :=
  "<DEPARTURE><vehiclenumber>1001</vehiclenumber></DEPARTURE>"
  ++ "<ARRIVAL><vehiclenumber>2002</vehiclenumber></ARRIVAL>".

Definition departureThenArrival : list (string * value) :=
  [("DEPARTURE", Obj [("vehiclenumber", Str "1001")]);
   ("ARRIVAL", Obj [("vehiclenumber", Str "2002")])].

(** An empty ARRIVAL, the only element. *)
Definition emptyArrivalText : string := "<ARRIVAL/>".
Definition emptyArrival : list (string * value) := [("ARRIVAL", Str "")].

(** A message whose punctuality has a toString child: the object xml2js
    makes of it has a property of its own under that name. *)
Definition shadowedText : string :=
  "<ARRIVAL><vehiclenumber>1001</vehiclenumber>"
  ++ "<punctuality><toString>1</toString></punctuality></ARRIVAL>".

Definition shadowed : value :=
  Obj [("vehiclenumber", Str "1001");
       ("punctuality", Obj [("toString", Str "1")])].

(** A message at the projection's origin with an occupancy of 3. *)
Definition seatedText : string :=
  "<ONSTOP><vehiclenumber>1001</vehiclenumber><rd-x>155000</rd-x>"
  ++ "<rd-y>463000</rd-y><occupancy>3</occupancy></ONSTOP>".

Definition seated : value :=
  Obj [("vehiclenumber", Str "1001"); ("rd-x", Str "155000");
       ("rd-y", Str "463000"); ("occupancy", Str "3")].

(** An event for [vehicleNumber] that carries the identifying fields only. *)
Definition plainEvent (vehicleNumber : string) (type : KV6MessageType)
  : KV6Update :=
  {| operator := "ARR"; type := type; journeyNumber := Str "7";
     vehicleNumber := Str vehicleNumber; lineNumber := Str "300";
     timestamp := NewDate (Str "2025-01-01T12:00:00+01:00");
     stopCode := Undefined; latitude := None; longitude := None;
     punctuality := None; occupancy := None |}.

(** The event of a message that has a vehicle number and nothing else. *)
Definition numberOnly (vehicleNumber : string) (type : KV6MessageType)
  : KV6Update :=
  {| operator := "ARR"; type := type; journeyNumber := Undefined;
     vehicleNumber := Str vehicleNumber; lineNumber := Undefined;
     timestamp := NewDate Undefined;
     stopCode := Undefined; latitude := None; longitude := None;
     punctuality := None; occupancy := None |}.

(** Event A sets a stop code and a position for vehicle 1001. *)
Definition eventA : KV6Update :=
  {| operator := "ARR"; type := ARRIVAL; journeyNumber := Str "7";
     vehicleNumber := Str "1001"; lineNumber := Str "300";
     timestamp := NewDate (Str "2025-01-01T12:00:00+01:00");
     stopCode := Str "X"; latitude := Some 52.125%float;
     longitude := Some 5.375%float;
     punctuality := None; occupancy := None |}.

(** Event B, for the same vehicle, has no stop code. *)
Definition eventB : KV6Update :=
  {| operator := "ARR"; type := DEPARTURE; journeyNumber := Str "7";
     vehicleNumber := Str "1001"; lineNumber := Str "300";
     timestamp := NewDate (Str "2025-01-01T12:01:00+01:00");
     stopCode := Undefined; latitude := None; longitude := None;
     punctuality := None; occupancy := None |}.

(** Event C, for the same vehicle, carries an empty stop code and the
    position (0, 0). *)
Definition eventC : KV6Update :=
  {| operator := "ARR"; type := ONROUTE; journeyNumber := Str "7";
     vehicleNumber := Str "1001"; lineNumber := Str "300";
     timestamp := NewDate (Str "2025-01-01T12:02:00+01:00");
     stopCode := Str ""; latitude := Some 0%float; longitude := Some 0%float;
     punctuality := None; occupancy := None |}.

(** A subscriber that raises, and one that records what it is given. *)
Definition raising : @EventBus.listener string (list string) :=
  fun _ w => Abrupt (Thrown "subscriber failed") w.
Definition recording : @EventBus.listener string (list string) :=
  fun data w => Normal tt (w ++ [data])%list.

(** The bus with the raising subscriber registered first. *)
Definition raisingThenRecording : @EventBus.TypedEventEmitter string (list string) :=
  EventBus.on EventBus.KV6_UPDATE recording
    (EventBus.on EventBus.KV6_UPDATE raising (fun _ => [])).

(** An SSE client whose every write throws, and one whose writes succeed. *)
Definition brokenClient : ApiServer.client :=
  {| ApiServer.cid := 1; ApiServer.throws := fun _ _ => true |}.
Definition healthyClient : ApiServer.client :=
  {| ApiServer.cid := 2; ApiServer.throws := fun _ _ => false |}.

Definition vehicleUpdate : ApiServer.message :=
  {| ApiServer.mtype := "vehicle_update";
     ApiServer.stringify := Returns "{}" |}.

(** A zlib that rejects its input, and the utf8 decoding of buffers of
    7-bit bytes (the only ones it is applied to here). *)
Definition rejecting : Connector.Buffer -> outcome Connector.Buffer :=
  fun _ => Throws (Thrown "incorrect header check").
Definition utf8OfAscii : Connector.Buffer -> text := Connector.latin1.

(** A text with two markers, and a buffer without any. *)
Definition twoMarkers : string := "<?xml?><KV6posinfo>".
Definition noMarker : Connector.Buffer := list_byte_of_string "hello".

(** A push message with two KV6posinfo elements, which xml2js groups into
    an array. *)
Definition repeatedPosinfoText : string :=
  "<VV_TM_PUSH><KV6posinfo><ARRIVAL><vehiclenumber>1001</vehiclenumber>"
  ++ "</ARRIVAL></KV6posinfo><KV6posinfo><ARRIVAL>"
  ++ "<vehiclenumber>2002</vehiclenumber></ARRIVAL></KV6posinfo></VV_TM_PUSH>".

Definition repeatedPosinfo : value :=
  element [("KV6posinfo", element [("ARRIVAL", Obj [("vehiclenumber", Str "1001")])]);
           ("KV6posinfo", element [("ARRIVAL", Obj [("vehiclenumber", Str "2002")])])].

(** The time values of the dates of the sample events, in milliseconds;
    every other date is taken to be invalid. *)
Definition timeValue (d : Date) : number :=
  match d with
  | NewDate (Str s) =>
      if String.eqb s "2025-01-01T12:00:00+01:00" then 1735729200000%float
      else if String.eqb s "2025-01-01T12:01:00+01:00" then 1735729260000%float
      else if String.eqb s "2025-01-01T12:02:00+01:00" then 1735729320000%float
      else nan
  | _ => nan
  end.

(** 12:31:30 on the day of the samples. *)
Definition halfPastTwelve : number := 1735731090000%float.

(** An event without timestamp element: its date is invalid. *)
Definition undated : KV6Update :=
  {| operator := "ARR"; type := ONROUTE; journeyNumber := Str "7";
     vehicleNumber := Str "3003"; lineNumber := Undefined;
     timestamp := NewDate Undefined;
     stopCode := Undefined; latitude := None; longitude := None;
     punctuality := None; occupancy := None |}.

(** A message whose payload cannot be serialised. *)
Definition unserialisable : ApiServer.message :=
  {| ApiServer.mtype := "vehicle_update";
     ApiServer.stringify := Throws TypeError |}.

(** The topic of the feed, and a frame on it around a document. *)
Definition feedTopic : string := "/ARR/KV6posinfo".
Definition frame (document : string)
  : outcome (Connector.Buffer * Connector.Buffer) :=
  Returns (list_byte_of_string feedTopic, list_byte_of_string document).

(** A subscriber on the store that throws, registered behind the state
    manager's. *)
Definition refusing : @EventBus.listener Connector.payload State.Map :=
  fun _ w => Abrupt (Thrown "subscriber failed") w.
Definition storeThenRefusing
  : @EventBus.TypedEventEmitter Connector.payload State.Map :=
  EventBus.on EventBus.KV6_UPDATE refusing
    (EventBus.on EventBus.KV6_UPDATE Connector.storeListener (fun _ => [])).

End Samples.

(* ===================================================================== *)
(** ** Facts about the parser *)
(* ===================================================================== *)
Module ParserFacts.
Import JS Kv6 ObjectUtil Xml2js Parser.
Local Open Scope list_scope.

Lemma lookup_set_prop k k' v ps :
  lookup_prop k (set_prop k' v ps)
  = if String.eqb k k' then Some v else lookup_prop k ps.
Proof.
  induction ps as [|[k0 v0] ps IH]; simpl.
  - by destruct (String.eqb k k').
  - destruct (String.eqb_spec k' k0) as [->|Hne]; simpl.
    + by destruct (String.eqb_spec k k0).
    + rewrite IH. destruct (String.eqb_spec k k0) as [->|]; [|done].
      by destruct (String.eqb_spec k0 k') as [->|].
Qed.

Lemma lookup_assignOrPush k obj k' v :
  lookup_prop k (assignOrPush obj k' v)
  = if String.eqb k k'
    then Some (match lookup_prop k' obj with
               | None => v
               | Some (Arr items) => Arr (items ++ [v])
               | Some old => Arr [old; v]
               end)
    else lookup_prop k obj.
Proof.
  unfold assignOrPush.
  destruct (lookup_prop k' obj) as [[]|]; by rewrite lookup_set_prop.
Qed.

Lemma occurrences_snoc k entries e :
  occurrences k (entries ++ [e])
  = if String.eqb k e.1 then occurrences k entries ++ [e.2]
    else occurrences k entries.
Proof.
  unfold occurrences. rewrite filter_app, fmap_app.
  destruct (String.eqb_spec k e.1) as [->|Hne].
  - by rewrite filter_cons_True.
  - rewrite filter_cons_False by congruence. by rewrite app_nil_r.
Qed.

Lemma occurrences_element_values k entries :
  Forall (λ e, is_element_value e.2 = true) entries →
  Forall (λ v, is_element_value v = true) (occurrences k entries).
Proof.
  unfold occurrences. induction 1 as [|e entries He _ IH]; [constructor|].
  rewrite filter_cons. case_decide; [by constructor|done].
Qed.

(** The object xml2js builds holds, under each name, the values of the
    entries of that name: the value itself for one, their array for more. *)
Lemma lookup_element entries k :
  Forall (λ e, is_element_value e.2 = true) entries →
  lookup_prop k (fold_left (λ obj e, assignOrPush obj e.1 e.2) entries [])
  = grouped (occurrences k entries).
Proof.
  induction entries as [|e entries IH] using rev_ind; intros Hall; [done|].
  apply Forall_app in Hall as [Hall _].
  rewrite fold_left_app; simpl.
  rewrite lookup_assignOrPush, occurrences_snoc.
  destruct (String.eqb_spec k e.1) as [->|Hne]; [|by apply IH].
  rewrite (IH Hall).
  pose proof (occurrences_element_values e.1 _ Hall) as Hocc.
  destruct (occurrences e.1 entries) as [|v [|v' vs]]; simpl.
  - done.
  - apply Forall_inv in Hocc. by destruct v.
  - done.
Qed.

Lemma prop_element entries k :
  Forall (λ e, is_element_value e.2 = true) entries →
  prop (element entries) k = default Undefined (grouped (occurrences k entries)).
Proof.
  intros H. unfold element, prop, own. by rewrite lookup_element.
Qed.

Section Facts.
Variable convertRdToWgs84 : number → number → conversion.
Variable parseStringPromise : text → outcome value.

Local Abbreviation grouped_by_type := (grouped_by_type convertRdToWgs84).
Local Abbreviation events_of := (events_of convertRdToWgs84).
Local Abbreviation events := (events convertRdToWgs84).
Local Abbreviation normalizes := (normalizes convertRdToWgs84).
Local Abbreviation payload_converts := (payload_converts convertRdToWgs84).

(** *** The conversions *)

Lemma ToString_converts v : converts v = true → ∃ s, ToString v = Returns s.
Proof. unfold converts. destruct (ToString v) as [s|]; [by exists s|done]. Qed.

Lemma Number_converts v : converts v = true → ∃ x, Number v = Returns x.
Proof.
  intros [s Hs]%ToString_converts. unfold Number, ToPrimitive.
  destruct v; try (by eexists); rewrite Hs; by eexists.
Qed.

Lemma newDate_converts v : converts v = true → newDate v = Returns (NewDate v).
Proof.
  intros [s Hs]%ToString_converts. unfold newDate, ToPrimitive.
  destruct v; try done; by rewrite Hs.
Qed.

Lemma newDate_returns v d : newDate v = Returns d → d = NewDate v.
Proof.
  unfold newDate. destruct (ToPrimitive v); [|done]. by intros [= <-].
Qed.

Lemma coerce_if_truthy_converts v :
  converts v = true → ∃ x, coerce_if_truthy v = Returns x.
Proof.
  intros [x Hx]%Number_converts. unfold coerce_if_truthy.
  destruct (truthy v); [|by eexists]. rewrite Hx. by eexists.
Qed.

Lemma coerce_if_truthy_returns v r :
  coerce_if_truthy v = Returns r →
  if truthy v then ∃ x, Number v = Returns x ∧ r = Some x else r = None.
Proof.
  unfold coerce_if_truthy. destruct (truthy v); [|by intros [= <-]].
  destruct (Number v) as [x|]; [|done]. intros [= <-]. by exists x.
Qed.

(** *** What [normalizeMessage] returns *)

Lemma base_returns raw ty op b :
  base raw ty op = Returns b →
  operator b = op ∧ type b = ty
  ∧ journeyNumber b = prop raw "journeynumber"
  ∧ vehicleNumber b = prop raw "vehiclenumber"
  ∧ lineNumber b = prop raw "lineplanningnumber"
  ∧ timestamp b = NewDate (prop raw "timestamp")
  ∧ stopCode b = prop raw "userstopcode"
  ∧ coerce_if_truthy (prop raw "punctuality") = Returns (punctuality b)
  ∧ latitude b = None ∧ longitude b = None ∧ occupancy b = None.
Proof.
  unfold base.
  destruct (newDate (prop raw "timestamp")) as [d|] eqn:Ed; [|done].
  destruct (coerce_if_truthy (prop raw "punctuality")) as [p|]; [|done].
  intros [= <-]. apply newDate_returns in Ed as ->. by repeat split.
Qed.

Lemma normalizeMessage_returns raw ty op e :
  normalizeMessage convertRdToWgs84 raw ty op = Returns e →
  raw ≠ Undefined
  ∧ ∃ b, base raw ty op = Returns b
    ∧ if defined (prop raw "rd_x") && defined (prop raw "rd_y")
      then ∃ x y, Number (prop raw "rd_x") = Returns x
             ∧ Number (prop raw "rd_y") = Returns y
             ∧ match convertRdToWgs84 x y with
               | ConversionError _ => e = b
               | Position lat lon =>
                   ∃ occ, coerce_if_truthy (prop raw "occupancy") = Returns occ
                          ∧ e = with_position b lat lon occ
               end
      else e = b.
Proof.
  intros He.
  assert (Hraw : raw ≠ Undefined) by (by intros ->).
  split; [done|].
  assert (Hbody :
    (b ← base raw ty op;
     if defined (prop raw "rd_x") && defined (prop raw "rd_y")
     then
       x ← Number (prop raw "rd_x");
       y ← Number (prop raw "rd_y");
       match convertRdToWgs84 x y with
       | ConversionError _ =>
           _ ← ToString (prop raw "vehiclenumber"); Returns b
       | Position lat lon =>
           occ ← coerce_if_truthy (prop raw "occupancy");
           Returns (with_position b lat lon occ)
       end
     else Returns b) = Returns e).
  { by destruct raw. }
  clear He. destruct (base raw ty op) as [b|]; [|done].
  cbn [mbind outcome_bind bind] in Hbody. exists b. split; [done|].
  destruct (defined _ && defined _); [|by injection Hbody as <-].
  destruct (Number (prop raw "rd_x")) as [x|]; [|done].
  destruct (Number (prop raw "rd_y")) as [y|]; [|done].
  cbn [mbind outcome_bind bind] in Hbody. exists x, y. do 2 (split; [done|]).
  destruct (convertRdToWgs84 x y) as [lat lon|msg].
  - destruct (coerce_if_truthy (prop raw "occupancy")) as [occ|]; [|done].
    injection Hbody as <-. by exists occ.
  - destruct (ToString (prop raw "vehiclenumber")); [|done].
    by injection Hbody as <-.
Qed.

(** A message whose converted fields all yield a primitive is normalized. *)
Lemma normalizeMessage_converts raw ty op :
  raw ≠ Undefined →
  Forall (λ f, converts (prop raw f) = true)
    ["timestamp"; "punctuality"; "rd_x"; "rd_y"; "vehiclenumber"; "occupancy"] →
  ∃ e, normalizeMessage convertRdToWgs84 raw ty op = Returns e.
Proof.
  intros Hraw Hc.
  apply Forall_cons in Hc as [Ht Hc]. apply Forall_cons in Hc as [Hp Hc].
  apply Forall_cons in Hc as [Hx Hc]. apply Forall_cons in Hc as [Hy Hc].
  apply Forall_cons in Hc as [Hv Hc]. apply Forall_cons in Hc as [Ho _].
  destruct (coerce_if_truthy_converts _ Hp) as [p Ep].
  destruct (Number_converts _ Hx) as [x Ex].
  destruct (Number_converts _ Hy) as [y Ey].
  destruct (ToString_converts _ Hv) as [s Es].
  destruct (coerce_if_truthy_converts _ Ho) as [o Eo].
  assert (Hbody : ∃ e,
    (b ← base raw ty op;
     if defined (prop raw "rd_x") && defined (prop raw "rd_y")
     then
       x ← Number (prop raw "rd_x");
       y ← Number (prop raw "rd_y");
       match convertRdToWgs84 x y with
       | ConversionError _ =>
           _ ← ToString (prop raw "vehiclenumber"); Returns b
       | Position lat lon =>
           occ ← coerce_if_truthy (prop raw "occupancy");
           Returns (with_position b lat lon occ)
       end
     else Returns b) = Returns e).
  { unfold base. rewrite (newDate_converts _ Ht), Ep, Ex, Ey, Es, Eo.
    cbn [mbind outcome_bind bind].
    destruct (defined _ && defined _); [|by eexists].
    destruct (convertRdToWgs84 x y); by eexists. }
  destruct Hbody as [e He]. exists e. by destruct raw.
Qed.

Lemma normalizeKeys_defined m : m ≠ Undefined → normalizeKeys m ≠ Undefined.
Proof. by destruct m. Qed.

(** *** The two loops *)

Lemma forMessages_outcome msgs ty op results :
  returned (forMessages convertRdToWgs84 msgs ty op results)
  = if forallb (λ m, normalizes m ty op) msgs
    then Some (results ++ events msgs ty op)
    else None.
Proof.
  revert results. induction msgs as [|m msgs IH]; intros results.
  - cbn. by rewrite app_nil_r.
  - cbn [forMessages forallb]. unfold Parser.events, Parser.normalizes in *.
    cbn [omap list_omap].
    destruct (normalizeMessage convertRdToWgs84 (normalizeKeys m) ty op)
      as [e|]; cbn [mbind outcome_bind bind returned andb option_bind]; [|done].
    rewrite IH. destruct (forallb _ msgs); [|done].
    cbn. by rewrite <- app_assoc.
Qed.

Lemma forTypes_element tys entries op results :
  Forall (λ e, is_element_value e.2 = true) entries →
  returned (forTypes convertRdToWgs84 tys (element entries) op results)
  = if payload_converts tys entries op
    then Some (results ++ events_of tys entries op)
    else None.
Proof.
  intros Hall. unfold Parser.events_of, Parser.payload_converts.
  pose proof (λ k, prop_element entries k Hall) as Hprop.
  generalize dependent (element entries). intros kv6 Hprop.
  revert results. induction tys as [|ty tys IH]; intros results.
  { cbn. by rewrite app_nil_r. }
  cbn [forTypes forallb map concat]. rewrite Hprop. unfold processed.
  pose proof (occurrences_element_values (name ty) _ Hall) as Hocc.
  destruct (truthy (default Undefined (grouped (occurrences (name ty) entries))))
    eqn:Et; [|by apply IH].
  assert (Hm : messages (default Undefined (grouped (occurrences (name ty) entries)))
               = occurrences (name ty) entries).
  { destruct (occurrences (name ty) entries) as [|v [|v' vs]]; [done| |done].
    apply Forall_inv in Hocc. by destruct v. }
  rewrite Hm.
  pose proof (forMessages_outcome (occurrences (name ty) entries) ty op results)
    as Hfm.
  destruct (forMessages convertRdToWgs84 _ ty op results) as [r|];
    cbn [returned mbind outcome_bind bind] in *.
  - destruct (forallb _ (occurrences (name ty) entries)); [|done].
    injection Hfm as ->. cbn [andb]. rewrite IH.
    destruct (forallb _ tys); [|done]. by rewrite <- app_assoc.
  - by destruct (forallb _ (occurrences (name ty) entries)).
Qed.

(** Without a lone empty element, every occurrence is processed. *)
Lemma processed_occurrences ty entries :
  Forall (λ e, is_element_value e.2 = true) entries →
  occurrences (name ty) entries ≠ [Str ""] →
  processed ty entries = occurrences (name ty) entries.
Proof.
  intros Hall Hne. unfold processed.
  pose proof (occurrences_element_values (name ty) _ Hall) as Hocc.
  destruct (occurrences (name ty) entries) as [|v [|v' vs]]; [done| |done].
  apply Forall_inv in Hocc. by destruct v as [|[|]| |].
Qed.

Lemma events_of_grouped_by_type tys entries op :
  Forall (λ e, is_element_value e.2 = true) entries →
  (∀ ty, occurrences (name ty) entries ≠ [Str ""]) →
  events_of tys entries op = grouped_by_type tys entries op.
Proof.
  intros Hall Hne. unfold Parser.events_of, Parser.grouped_by_type.
  f_equal. apply map_ext. intros ty. by rewrite processed_occurrences.
Qed.

Lemma processed_sub ty entries m :
  m ∈ processed ty entries → m ∈ occurrences (name ty) entries.
Proof.
  unfold processed. destruct (truthy _); [done|]. by intros ?%elem_of_nil.
Qed.

Lemma object_processed ty props entries :
  (name ty, Obj props) ∈ entries → Obj props ∈ processed ty entries.
Proof.
  intros Hin. unfold processed.
  assert (Hocc : Obj props ∈ occurrences (name ty) entries).
  { unfold occurrences. apply list_elem_of_fmap.
    exists (name ty, Obj props). split; [done|].
    by apply list_elem_of_filter. }
  destruct (occurrences (name ty) entries) as [|v [|v' vs]]; [done| |done].
  apply list_elem_of_singleton in Hocc as <-. cbn. by left.
Qed.

Lemma elem_of_events e msgs ty op :
  e ∈ events msgs ty op
  ↔ ∃ m, m ∈ msgs
         ∧ normalizeMessage convertRdToWgs84 (normalizeKeys m) ty op = Returns e.
Proof.
  unfold Parser.events. rewrite list_elem_of_omap. split.
  - intros (m & Hm & He). exists m. split; [done|].
    destruct (normalizeMessage _ _ _ _) as [e0|]; cbn in He; [|done].
    by injection He as ->.
  - intros (m & Hm & He). exists m. split; [done|]. by rewrite He.
Qed.

(** Every event comes from a message of the document, under the name of
    its type. *)
Lemma elem_of_events_of e tys entries op :
  e ∈ events_of tys entries op →
  ∃ ty m, ty ∈ tys ∧ m ∈ processed ty entries
          ∧ normalizeMessage convertRdToWgs84 (normalizeKeys m) ty op = Returns e.
Proof.
  unfold Parser.events_of. intros Hin.
  apply list_elem_of_In, in_concat in Hin as (l & Hl & He).
  apply in_map_iff in Hl as (ty & <- & Hty).
  apply list_elem_of_In, elem_of_events in He as (m & Hm & He).
  exists ty, m. split; [by apply list_elem_of_In|done].
Qed.

(** The event of a message that is an object is among the events. *)
Lemma event_in_events_of ty props entries op e :
  (name ty, Obj props) ∈ entries →
  normalizeMessage convertRdToWgs84 (normalizeKeys (Obj props)) ty op = Returns e →
  e ∈ events_of values entries op.
Proof.
  intros Hin He. unfold Parser.events_of.
  apply list_elem_of_In, in_concat.
  exists (events (processed ty entries) ty op).
  split.
  - apply in_map_iff. exists ty. split; [done|].
    apply list_elem_of_In. unfold values. destruct ty; set_solver.
  - apply list_elem_of_In, elem_of_events. exists (Obj props).
    split; [by apply object_processed|done].
Qed.

(** In a payload that converts, every processed message is normalized. *)
Lemma payload_converts_message ty m entries op :
  payload_converts values entries op = true →
  m ∈ processed ty entries →
  ∃ e, normalizeMessage convertRdToWgs84 (normalizeKeys m) ty op = Returns e.
Proof.
  unfold Parser.payload_converts. intros Hall Hm.
  rewrite forallb_forall in Hall.
  assert (Hty : In ty values) by (destruct ty; cbn; tauto).
  specialize (Hall ty Hty). rewrite forallb_forall in Hall.
  specialize (Hall m (proj1 (list_elem_of_In _ _) Hm)).
  unfold Parser.normalizes in Hall.
  destruct (normalizeMessage _ _ _ _) as [e|]; [by exists e|done].
Qed.

Lemma select_document kv6 parsed :
  truthy kv6 = true → holds parsed kv6 → select parsed = Returns (Some kv6).
Proof.
  intros Hk [->|(envelope & -> & <-)]; unfold select, bare, enveloped.
  - cbn. by rewrite Hk.
  - destruct envelope; cbn in *; try done. by rewrite Hk.
Qed.

(** What [parseXml] returns on a document whose KV6posinfo element has the
    given entries: the events of the processed messages, or nothing at all
    when a conversion throws. *)
Lemma parseXml_document xml op entries parsed :
  blank xml = false →
  parseStringPromise xml = Returns parsed →
  holds parsed (element entries) →
  Forall (λ e, is_element_value e.2 = true) entries →
  parseXml convertRdToWgs84 parseStringPromise xml op
  = if payload_converts values entries op
    then events_of values entries op
    else [].
Proof.
  intros Hb Hp Hdoc Hall. unfold parseXml. rewrite Hb, Hp.
  cbn [mbind outcome_bind bind].
  unfold collect. rewrite (select_document (element entries)) by done.
  cbn [mbind outcome_bind bind].
  pose proof (forTypes_element values entries op [] Hall) as Hft.
  destruct (forTypes convertRdToWgs84 values (element entries) op []) as [r|];
    cbn [returned] in Hft; destruct (payload_converts values entries op);
    try done. by injection Hft as ->.
Qed.

(** Every event [parseXml] returns is what [normalizeMessage] made of some
    message. *)
Lemma forMessages_Forall (P : KV6Update → Prop) op msgs ty results r :
  (∀ raw ty e, raw ≠ Undefined →
     normalizeMessage convertRdToWgs84 raw ty op = Returns e → P e) →
  forMessages convertRdToWgs84 msgs ty op results = Returns r →
  Forall P results → Forall P r.
Proof.
  intros HP. revert results. induction msgs as [|m msgs IH]; intros results; simpl.
  - by intros [= ->].
  - destruct (normalizeMessage convertRdToWgs84 (normalizeKeys m) ty op)
      as [e|] eqn:E; simpl; [|done].
    intros Hr Hres. apply (IH _ Hr). apply Forall_app. split; [done|].
    constructor; [|constructor]. eapply HP; [|exact E].
    intros Hu. by rewrite Hu in E.
Qed.

Lemma forTypes_Forall (P : KV6Update → Prop) op tys kv6 results r :
  (∀ raw ty e, raw ≠ Undefined →
     normalizeMessage convertRdToWgs84 raw ty op = Returns e → P e) →
  forTypes convertRdToWgs84 tys kv6 op results = Returns r →
  Forall P results → Forall P r.
Proof.
  intros HP. revert results. induction tys as [|ty tys IH]; intros results; simpl.
  - by intros [= ->].
  - destruct (truthy (prop kv6 (name ty))); [|by apply IH].
    destruct (forMessages convertRdToWgs84 _ ty op results) as [r'|] eqn:E;
      simpl; [|done].
    intros Hr Hres. apply (IH _ Hr). by eapply forMessages_Forall.
Qed.

Lemma parseXml_Forall (P : KV6Update → Prop) xml op :
  (∀ raw ty e, raw ≠ Undefined →
     normalizeMessage convertRdToWgs84 raw ty op = Returns e → P e) →
  Forall P (parseXml convertRdToWgs84 parseStringPromise xml op).
Proof.
  intros HP. unfold parseXml.
  destruct (blank xml); [constructor|].
  destruct (parseStringPromise xml) as [parsed|];
    cbn [mbind outcome_bind bind]; [|constructor].
  unfold collect. destruct (select parsed) as [[kv6|]|];
    cbn [mbind outcome_bind bind]; try constructor.
  destruct (forTypes convertRdToWgs84 values kv6 op []) as [r|] eqn:E;
    [|constructor].
  eapply forTypes_Forall; [exact HP|exact E|constructor].
Qed.

(** On a document, every event [parseXml] returns was made from an element
    of the document whose name is the event's type. *)
Lemma parseXml_events_from_document xml op entries parsed :
  blank xml = false →
  parseStringPromise xml = Returns parsed →
  holds parsed (element entries) →
  Forall (λ e, is_element_value e.2 = true) entries →
  Forall (λ e, ∃ ty m,
            (name ty, m) ∈ entries
            ∧ normalizeMessage convertRdToWgs84 (normalizeKeys m) ty op
              = Returns e)
    (parseXml convertRdToWgs84 parseStringPromise xml op).
Proof.
  intros Hb Hp Hdoc Hall.
  rewrite (parseXml_document xml op entries parsed) by done.
  destruct (payload_converts values entries op); [|constructor].
  apply Forall_forall. intros e He.
  apply elem_of_events_of in He as (ty & m & _ & Hm & He).
  exists ty, m. split; [|done].
  apply processed_sub in Hm. unfold occurrences in Hm.
  apply list_elem_of_fmap in Hm as ([n v] & -> & Hin).
  apply list_elem_of_filter in Hin as [Hn Hin]. cbn in *. by subst n.
Qed.

Lemma length_events msgs ty op :
  forallb (λ m, normalizes m ty op) msgs = true →
  length (events msgs ty op) = length msgs.
Proof.
  unfold Parser.events, Parser.normalizes.
  induction msgs as [|m msgs IH]; [done|]. cbn [forallb omap list_omap].
  destruct (normalizeMessage _ _ _ _); [|done]. cbn.
  intros H. by rewrite IH.
Qed.

Lemma length_occurrences_by_type entries :
  length (concat (map (λ ty, occurrences (name ty) entries) values))
  = length (filter (λ e, recognized e.1) entries).
Proof.
  unfold values; cbn [map concat].
  rewrite !length_app. cbn [length].
  unfold occurrences. rewrite !length_fmap.
  induction entries as [|[n v] entries IH]; [done|].
  rewrite !filter_cons. cbn [fst].
  destruct (decide (recognized n)) as [Hr|Hr].
  - unfold recognized in Hr. cbn in Hr.
    rewrite !elem_of_cons in Hr.
    cbn [length]. rewrite <- IH. clear IH.
    destruct Hr as [->|[->|[->|[->|[->|[->|[->|[->|[->|Hr]]]]]]]]];
      [..|by apply elem_of_nil in Hr];
      repeat (case_decide; [try discriminate|try done]); cbn [length]; lia.
  - rewrite <- IH. clear IH.
    unfold recognized in Hr. cbn in Hr. rewrite !elem_of_cons in Hr.
    repeat (case_decide; [exfalso; apply Hr; subst; tauto|]). done.
Qed.

Lemma length_grouped_by_type entries op :
  (∀ ty, forallb (λ m, normalizes m ty op) (occurrences (name ty) entries)
         = true) →
  length (grouped_by_type values entries op)
  = length (filter (λ e, recognized e.1) entries).
Proof.
  intros Hall. rewrite <- length_occurrences_by_type.
  unfold Parser.grouped_by_type. rewrite !length_concat. f_equal.
  rewrite !map_map. apply map_ext. intros ty.
  apply length_events, Hall.
Qed.

(** *** The claims on the parser *)

(** C2 (as amended).  On a document whose KV6posinfo element has the given
    attributes and children, and in which no conversion throws, [parseXml]
    returns one event per occurrence of an element of a known type, and
    none for any other name; the events are grouped by type in the order of
    the enum, and within a type they are in document order.  When the
    conversion of a field of some message throws, no event is returned for
    the whole document.  (Stated for documents in which no known type has an
    empty element as its only occurrence.) *)
Theorem parseXml_groups_events_by_type xml op entries parsed :
  blank xml = false →
  parseStringPromise xml = Returns parsed →
  holds parsed (element entries) →
  Forall (λ e, is_element_value e.2 = true) entries →
  (∀ ty, occurrences (name ty) entries ≠ [Str ""]) →
  parseXml convertRdToWgs84 parseStringPromise xml op
  = (if payload_converts values entries op
     then grouped_by_type values entries op
     else [])
  ∧ (payload_converts values entries op = true →
     length (parseXml convertRdToWgs84 parseStringPromise xml op)
     = length (filter (λ e, recognized e.1) entries)).
Proof.
  intros Hb Hp Hdoc Hall Hne.
  rewrite (parseXml_document xml op entries parsed) by done.
  rewrite events_of_grouped_by_type by done.
  split; [done|]. intros Hc. rewrite Hc.
  apply length_grouped_by_type. intros ty.
  unfold Parser.payload_converts in Hc. rewrite forallb_forall in Hc.
  rewrite <- (processed_occurrences ty entries) by done.
  apply Hc. destruct ty; cbn; tauto.
Qed.

(** C3 (as amended).  In a document in which no conversion throws, a
    message whose numeric text does not coerce is no error and is not
    dropped: its event is among those [parseXml] returns.  A truthy
    punctuality is carried as [Number] of it, which for a text that is no
    number is NaN; a truthy occupancy likewise when the event has a
    position, and is absent when it has none; and the planar coordinates
    reach the converter coerced, NaN included, the position being the
    converter's verdict. *)
Theorem failed_coercion_is_carried_as_NaN xml op entries parsed ty props :
  blank xml = false →
  parseStringPromise xml = Returns parsed →
  holds parsed (element entries) →
  Forall (λ e, is_element_value e.2 = true) entries →
  payload_converts values entries op = true →
  (name ty, Obj props) ∈ entries →
  let raw := normalizeKeys (Obj props) in
  ∃ e, e ∈ parseXml convertRdToWgs84 parseStringPromise xml op
    ∧ normalizeMessage convertRdToWgs84 raw ty op = Returns e
    ∧ (truthy (prop raw "punctuality") = true →
       ∃ x, Number (prop raw "punctuality") = Returns x
            ∧ punctuality e = Some x)
    ∧ (∀ s, prop raw "punctuality" = Str s → s ≠ "" →
            punctuality e = Some (StringToNumber s))
    ∧ (truthy (prop raw "occupancy") = true →
       match latitude e with
       | Some _ => ∃ x, Number (prop raw "occupancy") = Returns x
                        ∧ occupancy e = Some x
       | None => occupancy e = None
       end)
    ∧ (∀ s, prop raw "occupancy" = Str s → s ≠ "" →
            occupancy e = match latitude e with
                          | Some _ => Some (StringToNumber s)
                          | None => None
                          end)
    ∧ (defined (prop raw "rd_x") && defined (prop raw "rd_y") = true →
       ∃ x y, Number (prop raw "rd_x") = Returns x
              ∧ Number (prop raw "rd_y") = Returns y
              ∧ match convertRdToWgs84 x y with
                | Position lat lon =>
                    latitude e = Some lat ∧ longitude e = Some lon
                | ConversionError _ =>
                    latitude e = None ∧ longitude e = None
                end).
Proof.
  intros Hb Hp Hdoc Hall Hc Hin raw.
  rewrite (parseXml_document xml op entries parsed), Hc by done.
  destruct (payload_converts_message ty (Obj props) entries op Hc
              (object_processed _ _ _ Hin)) as [e He].
  exists e. split; [by eapply event_in_events_of|]. split; [done|].
  fold raw in He.
  apply normalizeMessage_returns in He as (_ & b & Hbase & Hpos).
  apply base_returns in Hbase
    as (_ & _ & _ & _ & _ & _ & _ & Hpun & Hlat & Hlon & Hocc).
  apply coerce_if_truthy_returns in Hpun.
  assert (Hpe : punctuality e = punctuality b).
  { destruct (defined _ && defined _); [|by subst].
    destruct Hpos as (x & y & _ & _ & Hpos).
    destruct (convertRdToWgs84 x y); [|by subst].
    by destruct Hpos as (occ & _ & ->). }
  assert (Htext : ∀ s, s ≠ "" → truthy (Str s) = true).
  { intros [|c s]; [done|]. by intros _. }
  assert (Hcases :
    (truthy (prop raw "occupancy") = true →
     match latitude e with
     | Some _ => ∃ x, Number (prop raw "occupancy") = Returns x
                      ∧ occupancy e = Some x
     | None => occupancy e = None
     end)
    ∧ (defined (prop raw "rd_x") && defined (prop raw "rd_y") = true →
       ∃ x y, Number (prop raw "rd_x") = Returns x
              ∧ Number (prop raw "rd_y") = Returns y
              ∧ match convertRdToWgs84 x y with
                | Position lat lon =>
                    latitude e = Some lat ∧ longitude e = Some lon
                | ConversionError _ =>
                    latitude e = None ∧ longitude e = None
                end)).
  { destruct (defined _ && defined _).
    - destruct Hpos as (x & y & Hx & Hy & Hpos). split.
      + intros Ht. destruct (convertRdToWgs84 x y).
        * destruct Hpos as (occ & Ho & ->). cbn.
          apply coerce_if_truthy_returns in Ho. rewrite Ht in Ho.
          destruct Ho as (o & Ho & ->). by exists o.
        * subst e. by rewrite Hlat.
      + intros _. exists x, y. do 2 (split; [done|]).
        destruct (convertRdToWgs84 x y).
        * by destruct Hpos as (occ & _ & ->).
        * by subst e.
    - subst e. split; [|done]. intros _. by rewrite Hlat. }
  destruct Hcases as [Hoc Hxy].
  split; [|split; [|split; [done|split; [|done]]]].
  - intros Ht. rewrite Ht in Hpun. destruct Hpun as (x & Hx & Hb').
    exists x. split; [done|]. by rewrite Hpe.
  - intros s Hs Hne. rewrite Hs, (Htext s Hne) in Hpun.
    destruct Hpun as (x & Hx & Hb'). injection Hx as <-. by rewrite Hpe.
  - intros s Hs Hne. rewrite Hs in Hoc. specialize (Hoc (Htext s Hne)).
    destruct (latitude e); [|done].
    destruct Hoc as (x & Hx & ->). by injection Hx as <-.
Qed.

(** C4 (as amended).  In a document in which no conversion throws, when
    both planar coordinates of a message are there and the converter
    reports an error, [parseXml] still returns the event of the message: it
    is the base event, with every identifying field, the stop code and the
    punctuality of the message, and without latitude, longitude and
    occupancy. *)
Theorem conversion_error_returns_base_event xml op entries parsed ty props
  x y message :
  blank xml = false →
  parseStringPromise xml = Returns parsed →
  holds parsed (element entries) →
  Forall (λ e, is_element_value e.2 = true) entries →
  payload_converts values entries op = true →
  (name ty, Obj props) ∈ entries →
  let raw := normalizeKeys (Obj props) in
  defined (prop raw "rd_x") && defined (prop raw "rd_y") = true →
  Number (prop raw "rd_x") = Returns x →
  Number (prop raw "rd_y") = Returns y →
  convertRdToWgs84 x y = ConversionError message →
  ∃ e, e ∈ parseXml convertRdToWgs84 parseStringPromise xml op
    ∧ normalizeMessage convertRdToWgs84 raw ty op = Returns e
    ∧ latitude e = None ∧ longitude e = None ∧ occupancy e = None
    ∧ operator e = op ∧ type e = ty
    ∧ journeyNumber e = prop raw "journeynumber"
    ∧ vehicleNumber e = prop raw "vehiclenumber"
    ∧ lineNumber e = prop raw "lineplanningnumber"
    ∧ timestamp e = NewDate (prop raw "timestamp")
    ∧ stopCode e = prop raw "userstopcode"
    ∧ coerce_if_truthy (prop raw "punctuality") = Returns (punctuality e).
Proof.
  intros Hb Hp Hdoc Hall Hc Hin raw Hd Hx Hy Hconv.
  rewrite (parseXml_document xml op entries parsed), Hc by done.
  destruct (payload_converts_message ty (Obj props) entries op Hc
              (object_processed _ _ _ Hin)) as [e He].
  exists e. split; [by eapply event_in_events_of|]. split; [done|].
  fold raw in He.
  apply normalizeMessage_returns in He as (_ & b & Hbase & Hpos).
  rewrite Hd in Hpos. destruct Hpos as (x' & y' & Hx' & Hy' & Hpos).
  rewrite Hx in Hx'. rewrite Hy in Hy'.
  injection Hx' as <-. injection Hy' as <-. rewrite Hconv in Hpos. subst e.
  apply base_returns in Hbase
    as (? & ? & ? & ? & ? & ? & ? & ? & ? & ? & ?).
  by repeat split.
Qed.

(** C10.  In every event [parseXml] returns, latitude and longitude are both
    there or both missing; and the event, made from some message, carries
    an occupancy only when both planar coordinates of that message were
    defined and the conversion succeeded: a message without both planar
    coordinates never yields an occupancy. *)
Theorem occupancy_only_with_position xml op :
  Forall
    (λ e, (latitude e = None ↔ longitude e = None)
          ∧ ∃ raw ty,
              normalizeMessage convertRdToWgs84 raw ty op = Returns e
              ∧ (occupancy e ≠ None →
                 defined (prop raw "rd_x") = true
                 ∧ defined (prop raw "rd_y") = true
                 ∧ ∃ x y lat lon,
                     Number (prop raw "rd_x") = Returns x
                     ∧ Number (prop raw "rd_y") = Returns y
                     ∧ convertRdToWgs84 x y = Position lat lon
                     ∧ latitude e = Some lat ∧ longitude e = Some lon)
              ∧ (defined (prop raw "rd_x") && defined (prop raw "rd_y") = false →
                 occupancy e = None))
    (parseXml convertRdToWgs84 parseStringPromise xml op).
Proof.
  apply parseXml_Forall. intros raw ty e Hraw He.
  assert (Hcases :
    (latitude e = None ↔ longitude e = None)
    ∧ (occupancy e ≠ None →
       defined (prop raw "rd_x") = true ∧ defined (prop raw "rd_y") = true
       ∧ ∃ x y lat lon,
           Number (prop raw "rd_x") = Returns x
           ∧ Number (prop raw "rd_y") = Returns y
           ∧ convertRdToWgs84 x y = Position lat lon
           ∧ latitude e = Some lat ∧ longitude e = Some lon)
    ∧ (defined (prop raw "rd_x") && defined (prop raw "rd_y") = false →
       occupancy e = None)).
  { pose proof He as Hinv.
    apply normalizeMessage_returns in Hinv as (_ & b & Hbase & Hpos).
    apply base_returns in Hbase
      as (_ & _ & _ & _ & _ & _ & _ & _ & Hlat & Hlon & Hocc).
    destruct (defined (prop raw "rd_x") && defined (prop raw "rd_y")) eqn:Ed.
    - apply andb_prop in Ed as [Hx Hy].
      destruct Hpos as (x & y & Ex & Ey & Hpos).
      destruct (convertRdToWgs84 x y) as [lat lon|msg] eqn:Ec.
      + destruct Hpos as (occ & _ & ->). cbn.
        split; [done|]. split; [|done]. intros _.
        do 2 (split; [done|]). by exists x, y, lat, lon.
      + subst e. rewrite Hlat, Hlon, Hocc. by repeat split.
    - subst e. rewrite Hlat, Hlon, Hocc. by repeat split. }
  destruct Hcases as (H1 & H2 & H3). split; [done|]. by exists raw, ty.
Qed.

End Facts.

(** *** The claims at concrete documents *)

Import Samples.

(** C2, witness: a push message with a DEPARTURE followed by an ARRIVAL. *)
Lemma parseXml_groups_events_by_type_witness :
  parseXml referenceConverter
    (pushed departureThenArrivalText departureThenArrival)
    (units (pushText departureThenArrivalText)) "ARR"
  = (if Parser.payload_converts referenceConverter values
          departureThenArrival "ARR"
     then Parser.grouped_by_type referenceConverter values
            departureThenArrival "ARR"
     else [])
  ∧ (Parser.payload_converts referenceConverter values
       departureThenArrival "ARR" = true →
     length (parseXml referenceConverter
               (pushed departureThenArrivalText departureThenArrival)
               (units (pushText departureThenArrivalText)) "ARR")
     = length (filter (λ e, recognized e.1) departureThenArrival)).
Proof.
  apply (parseXml_groups_events_by_type referenceConverter
           (pushed departureThenArrivalText departureThenArrival)
           (units (pushText departureThenArrivalText)) "ARR" departureThenArrival
           (enveloped (pushEnvelope departureThenArrival))).
  - reflexivity.
  - reflexivity.
  - right. exists (pushEnvelope departureThenArrival). split; reflexivity.
  - repeat constructor.
  - intros ty; destruct ty; vm_compute; discriminate.
Defined.

(** The sample payload converts, and has its two events; a payload with a
    punctuality that has a toString child converts not, and has none. *)
Lemma payload_converts_samples :
  Parser.payload_converts referenceConverter values departureThenArrival "ARR"
  = true
  ∧ length (parseXml referenceConverter
              (pushed departureThenArrivalText departureThenArrival)
              (units (pushText departureThenArrivalText)) "ARR") = 2
  ∧ Parser.payload_converts referenceConverter values
      [("ARRIVAL", shadowed)] "ARR" = false
  ∧ parseXml referenceConverter
      (pushed shadowedText [("ARRIVAL", shadowed)])
      (units (pushText shadowedText)) "ARR" = [].
Proof. repeat split; reflexivity. Qed.

(** C2, counterexample.  Of a DEPARTURE followed by an ARRIVAL, [parseXml]
    returns the ARRIVAL first: not document order.  And an empty ARRIVAL
    that is the only element of its type yields no event. *)
Lemma parseXml_not_in_document_order :
  map type (parseXml referenceConverter
              (pushed departureThenArrivalText departureThenArrival)
              (units (pushText departureThenArrivalText)) "ARR")
  = [ARRIVAL; DEPARTURE]
  ∧ map type (in_document_order referenceConverter departureThenArrival "ARR")
    = [DEPARTURE; ARRIVAL]
  ∧ parseXml referenceConverter
      (pushed departureThenArrivalText departureThenArrival)
      (units (pushText departureThenArrivalText)) "ARR"
    ≠ in_document_order referenceConverter departureThenArrival "ARR"
  ∧ parseXml referenceConverter (unwrapped emptyArrivalText emptyArrival)
      (units (bareText emptyArrivalText)) "ARR" = []
  ∧ length (filter (λ e, recognized e.1) emptyArrival) = 1.
Proof.
  split; [reflexivity|]. split; [reflexivity|]. split; [|split; reflexivity].
  intros H. apply (f_equal (map type)) in H. discriminate H.
Qed.

(** C3, witness: the message at the origin, whose punctuality is "abc". *)
Lemma failed_coercion_is_carried_as_NaN_witness :
  let raw := normalizeKeys atOrigin in
  ∃ e, e ∈ parseXml referenceConverter
             (pushed atOriginText [("ARRIVAL", atOrigin)])
             (units (pushText atOriginText)) "ARR"
    ∧ normalizeMessage referenceConverter raw ARRIVAL "ARR" = Returns e
    ∧ (truthy (prop raw "punctuality") = true →
       ∃ x, Number (prop raw "punctuality") = Returns x
            ∧ punctuality e = Some x)
    ∧ (∀ s, prop raw "punctuality" = Str s → s ≠ "" →
            punctuality e = Some (StringToNumber s))
    ∧ (truthy (prop raw "occupancy") = true →
       match latitude e with
       | Some _ => ∃ x, Number (prop raw "occupancy") = Returns x
                        ∧ occupancy e = Some x
       | None => occupancy e = None
       end)
    ∧ (∀ s, prop raw "occupancy" = Str s → s ≠ "" →
            occupancy e = match latitude e with
                          | Some _ => Some (StringToNumber s)
                          | None => None
                          end)
    ∧ (defined (prop raw "rd_x") && defined (prop raw "rd_y") = true →
       ∃ x y, Number (prop raw "rd_x") = Returns x
              ∧ Number (prop raw "rd_y") = Returns y
              ∧ match referenceConverter x y with
                | Position lat lon =>
                    latitude e = Some lat ∧ longitude e = Some lon
                | ConversionError _ =>
                    latitude e = None ∧ longitude e = None
                end).
Proof.
  apply (failed_coercion_is_carried_as_NaN referenceConverter
           (pushed atOriginText [("ARRIVAL", atOrigin)])
           (units (pushText atOriginText)) "ARR" [("ARRIVAL", atOrigin)]
           (enveloped (pushEnvelope [("ARRIVAL", atOrigin)])) ARRIVAL).
  - reflexivity.
  - reflexivity.
  - right. exists (pushEnvelope [("ARRIVAL", atOrigin)]). split; reflexivity.
  - repeat constructor.
  - reflexivity.
  - left.
Defined.

(** C3, counterexample.  The punctuality "abc" is text that is not a
    number; the event carries a punctuality all the same, and it is NaN. *)
Lemma failed_coercion_is_not_absent :
  prop (normalizeKeys atOrigin) "punctuality" = Str "abc"
  ∧ Number (Str "abc") = Returns nan
  ∧ map punctuality
      (parseXml referenceConverter
         (pushed atOriginText [("ARRIVAL", atOrigin)])
         (units (pushText atOriginText)) "ARR")
    = [Some nan].
Proof. repeat split; reflexivity. Qed.

(** C4, witness: the message far outside the domain. *)
Lemma conversion_error_returns_base_event_witness :
  let raw := normalizeKeys farAway in
  ∃ e, e ∈ parseXml referenceConverter
             (unwrapped farAwayText [("ONROUTE", farAway)])
             (units (bareText farAwayText)) "ARR"
    ∧ normalizeMessage referenceConverter raw ONROUTE "ARR" = Returns e
    ∧ latitude e = None ∧ longitude e = None ∧ occupancy e = None
    ∧ operator e = "ARR" ∧ type e = ONROUTE
    ∧ journeyNumber e = prop raw "journeynumber"
    ∧ vehicleNumber e = prop raw "vehiclenumber"
    ∧ lineNumber e = prop raw "lineplanningnumber"
    ∧ timestamp e = NewDate (prop raw "timestamp")
    ∧ stopCode e = prop raw "userstopcode"
    ∧ coerce_if_truthy (prop raw "punctuality") = Returns (punctuality e).
Proof.
  apply (conversion_error_returns_base_event referenceConverter
           (unwrapped farAwayText [("ONROUTE", farAway)])
             (units (bareText farAwayText)) "ARR"
           [("ONROUTE", farAway)] (bare (element [("ONROUTE", farAway)]))
           ONROUTE _ 99999999%float 99999999%float
           "outside the domain of the projection").
  - reflexivity.
  - reflexivity.
  - left; reflexivity.
  - repeat constructor.
  - reflexivity.
  - left.
  - reflexivity.
  - reflexivity.
  - reflexivity.
  - reflexivity.
Defined.

(** C4, counterexample.  The far-away message supplies the occupancy "3",
    which coerces to 3; the conversion fails, and the event returned has no
    occupancy: more than latitude and longitude is missing. *)
Lemma conversion_error_drops_occupancy :
  coerce_if_truthy (prop (normalizeKeys farAway) "occupancy")
  = Returns (Some 3%float)
  ∧ (∃ x y message,
       Number (prop (normalizeKeys farAway) "rd_x") = Returns x
       ∧ Number (prop (normalizeKeys farAway) "rd_y") = Returns y
       ∧ referenceConverter x y = ConversionError message)
  ∧ map occupancy
      (parseXml referenceConverter
         (unwrapped farAwayText [("ONROUTE", farAway)])
             (units (bareText farAwayText)) "ARR")
    = [None].
Proof.
  split; [reflexivity|]. split; [|reflexivity].
  by eexists _, _, _.
Qed.

(** C10, at the document with the message at the origin and the message
    far outside the domain. *)
Lemma occupancy_only_with_position_witness :
  Forall
    (λ e, (latitude e = None ↔ longitude e = None)
          ∧ ∃ raw ty,
              normalizeMessage referenceConverter raw ty "ARR" = Returns e
              ∧ (occupancy e ≠ None →
                 defined (prop raw "rd_x") = true
                 ∧ defined (prop raw "rd_y") = true
                 ∧ ∃ x y lat lon,
                     Number (prop raw "rd_x") = Returns x
                     ∧ Number (prop raw "rd_y") = Returns y
                     ∧ referenceConverter x y = Position lat lon
                     ∧ latitude e = Some lat ∧ longitude e = Some lon)
              ∧ (defined (prop raw "rd_x") && defined (prop raw "rd_y") = false →
                 occupancy e = None))
    (parseXml referenceConverter
       (unwrapped (atOriginText ++ farAwayText)
          [("ARRIVAL", atOrigin); ("ONROUTE", farAway)])
       (units (bareText (atOriginText ++ farAwayText))) "ARR").
Proof.
  exact (occupancy_only_with_position referenceConverter
           (unwrapped (atOriginText ++ farAwayText)
              [("ARRIVAL", atOrigin); ("ONROUTE", farAway)])
           (units (bareText (atOriginText ++ farAwayText))) "ARR").
Defined.

End ParserFacts.

(* ===================================================================== *)
(** ** Facts about the vehicle state store *)
(* ===================================================================== *)

Module StateFacts.
Import JS State.
Local Open Scope list_scope.

Lemma same_key_eq a b : same_key a b = true → a = b.
Proof.
  destruct a, b; try done. cbn. by intros ->%String.eqb_eq.
Qed.

Lemma Map_get_set_present k v m old :
  Map_get k m = Some old → Map_get k (Map_set k v m) = Some v.
Proof.
  induction m as [|[k' v'] m IH]; [done|]. cbn.
  destruct (same_key k k') eqn:E; cbn; rewrite E; [done|apply IH].
Qed.

Lemma Map_get_set_absent k v m :
  same_key k k = true → Map_get k m = None →
  Map_get k (Map_set k v m) = Some v.
Proof.
  intros Hk. induction m as [|[k' v'] m IH]; cbn.
  - by rewrite Hk.
  - destruct (same_key k k') eqn:E; cbn; rewrite E; [done|apply IH].
Qed.

Lemma Map_set_absent k v m :
  Map_get k m = None → Map_set k v m = m ++ [(k, v)].
Proof.
  induction m as [|[k' v'] m IH]; [done|]. cbn.
  destruct (same_key k k'); [done|]. intros H. by rewrite IH.
Qed.

Lemma Forall_Map_set (P : VehicleState → Prop) k v m :
  P v → Forall P (Map_values m) → Forall P (Map_values (Map_set k v m)).
Proof.
  intros Hv. unfold Map_values.
  induction m as [|[k' v'] m IH]; cbn; intros Hm.
  - by repeat constructor.
  - apply Forall_cons in Hm as [Hv' Hm].
    destruct (same_key k k'); cbn; constructor; auto.
Qed.

Lemma name_not_empty ty : truthy (Str (Kv6.name ty)) = true.
Proof. by destruct ty. Qed.

Lemma name_inj ty ty' : Kv6.name ty = Kv6.name ty' → ty = ty'.
Proof. by destruct ty, ty'. Qed.

Lemma name_not_active ty : Kv6.name ty ≠ "active".
Proof. by destruct ty. Qed.

Lemma name_not_total ty : Kv6.name ty ≠ "total".
Proof. by destruct ty. Qed.

(** One turn of the counting loop, key by key. *)
Lemma countVehicle_lookup counts v k :
  countVehicle counts v !! k
  = if decide (k = Kv6.name (status v)) then Some (default 0 (counts !! k) + 1)
    else if decide (k = "active")
         then (if isActive (status v)
               then Some (default 0 (counts !! "active") + 1)
               else counts !! "active")
         else counts !! k.
Proof.
  unfold countVehicle. rewrite name_not_empty. cbn [negb].
  pose proof (name_not_active (status v)) as Hna.
  destruct (isActive (status v)); unfold bump; rewrite ?lookup_insert;
    repeat case_decide; subst; try done; congruence.
Qed.

Lemma fold_countVehicle_total vs counts :
  fold_left countVehicle vs counts !! "total" = counts !! "total".
Proof.
  revert counts. induction vs as [|v vs IH]; intros counts; [done|]. cbn.
  rewrite IH, countVehicle_lookup.
  pose proof (name_not_total (status v)).
  repeat case_decide; done.
Qed.

Lemma fold_countVehicle_active vs counts a :
  counts !! "active" = Some a →
  fold_left countVehicle vs counts !! "active"
  = Some (a + length (filter (λ v, isActive (status v) = true) vs)).
Proof.
  revert counts a. induction vs as [|v vs IH]; intros counts a Ha.
  { cbn. by rewrite Ha, Nat.add_0_r. }
  cbn [fold_left]. rewrite filter_cons.
  pose proof (name_not_active (status v)).
  destruct (isActive (status v)) eqn:E.
  - rewrite (IH _ (a + 1)).
    + rewrite decide_True by done. cbn. f_equal. lia.
    + rewrite countVehicle_lookup, E, Ha. repeat case_decide; done.
  - rewrite (IH _ a).
    + by rewrite decide_False by done.
    + rewrite countVehicle_lookup, E, Ha. repeat case_decide; done.
Qed.

Lemma fold_countVehicle_status vs counts ty :
  fold_left countVehicle vs counts !! Kv6.name ty
  = match length (filter (λ v, status v = ty) vs) with
    | 0 => counts !! Kv6.name ty
    | n => Some (default 0 (counts !! Kv6.name ty) + n)
    end.
Proof.
  revert counts. induction vs as [|v vs IH]; intros counts; [done|].
  cbn [fold_left]. rewrite IH, countVehicle_lookup, filter_cons.
  pose proof (name_not_active ty).
  destruct (decide (status v = ty)) as [->|Hne].
  - rewrite decide_True by done. cbn.
    destruct (length (filter _ vs)); [done|]. f_equal. lia.
  - rewrite decide_False by (intros ?%name_inj; done).
    rewrite decide_False by done. done.
Qed.

Lemma fold_countVehicle_other vs counts k :
  k ≠ "active" → (∀ ty, k ≠ Kv6.name ty) →
  fold_left countVehicle vs counts !! k = counts !! k.
Proof.
  intros Ha Hn. revert counts. induction vs as [|v vs IH]; intros counts; [done|].
  cbn. rewrite IH, countVehicle_lookup.
  rewrite decide_False by apply Hn. by rewrite decide_False.
Qed.

Lemma filter_status_nil ty (vs : list VehicleState) :
  length (filter (λ v, status v = ty) vs) = 0 ↔ ty ∉ status <$> vs.
Proof.
  induction vs as [|v vs IH].
  - split; [intros _; apply not_elem_of_nil|done].
  - rewrite filter_cons, fmap_cons, not_elem_of_cons.
    destruct (decide (status v = ty)) as [->|Hne]; cbn.
    + split; [done|]. by intros [? _].
    + rewrite IH. split; [by split|by intros [_ ?]].
Qed.

(** *** The claims on the store *)

(** C1 (as amended).  An update for a vehicle id that is in the store sets
    status and lastUpdated from the event, whatever else it carries.  A
    field of the event overwrites the stored one when it is truthy (a
    non-empty stop code or line number, a latitude or longitude that is
    neither zero nor NaN) and, for occupancy and punctuality, when it is
    defined; a field that is absent, or falsy, leaves the stored value as it
    was.  In particular an event without stop code keeps the stored one. *)
Theorem updateVehicle_merges_truthy_fields u vehicles old :
  truthy (Kv6.vehicleNumber u) = true →
  Map_get (Kv6.vehicleNumber u) vehicles = Some old →
  ∃ new,
    Map_get (Kv6.vehicleNumber u) (updateVehicle u vehicles) = Some new
    ∧ status new = Kv6.type u
    ∧ lastUpdated new = Kv6.timestamp u
    ∧ (Kv6.stopCode u = Undefined → stopCode new = stopCode old)
    ∧ (truthy (Kv6.stopCode u) = true → stopCode new = Kv6.stopCode u)
    ∧ (truthy (Kv6.stopCode u) = false → stopCode new = stopCode old)
    ∧ (truthy (Kv6.lineNumber u) = true → lineNumber new = Kv6.lineNumber u)
    ∧ (truthy (Kv6.lineNumber u) = false → lineNumber new = lineNumber old)
    ∧ (∀ x, Kv6.latitude u = Some x →
         latitude new = if truthy_number x then Some x else latitude old)
    ∧ (Kv6.latitude u = None → latitude new = latitude old)
    ∧ (∀ x, Kv6.longitude u = Some x →
         longitude new = if truthy_number x then Some x else longitude old)
    ∧ (Kv6.longitude u = None → longitude new = longitude old)
    ∧ (∀ x, Kv6.occupancy u = Some x → occupancy new = Some x)
    ∧ (Kv6.occupancy u = None → occupancy new = occupancy old)
    ∧ (∀ x, Kv6.punctuality u = Some x → punctuality new = Some x)
    ∧ (Kv6.punctuality u = None → punctuality new = punctuality old)
    ∧ vehicleNumber new = vehicleNumber old
    ∧ lineName new = lineName old
    ∧ stopName new = stopName old.
Proof.
  intros Ht Hg. exists (merge old u). split.
  { unfold updateVehicle. rewrite Ht, Hg. cbn [negb].
    by apply Map_get_set_present with old. }
  unfold merge, or_else, spread_if_truthy, spread_if_defined; cbn.
  repeat split; try done; try (by intros ->); by intros x ->.
Qed.

(** C9.  [getStatusCounts] gives, under "total", the number of entries;
    under "active", the number of entries whose status is ARRIVAL,
    DEPARTURE, ONROUTE or ONSTOP; under the name of each status some entry
    has, the number of entries with that status; and nothing else.  After
    four vehicles with statuses ARRIVAL, INIT, DEPARTURE and END were put
    into an empty store, active is 2 and total is 4. *)
Theorem getStatusCounts_counts vehicles :
  let counts := getStatusCounts vehicles in
  counts !! "total" = Some (Map_size vehicles)
  ∧ counts !! "active"
    = Some (length (filter (λ v, isActive (status v) = true)
                           (Map_values vehicles)))
  ∧ (∀ ty, counts !! Kv6.name ty
           = if decide (ty ∈ status <$> Map_values vehicles)
             then Some (length (filter (λ v, status v = ty)
                                       (Map_values vehicles)))
             else None)
  ∧ (∀ k, is_Some (counts !! k) →
          k = "total" ∨ k = "active"
          ∨ ∃ ty, k = Kv6.name ty ∧ ty ∈ status <$> Map_values vehicles)
  ∧ (∀ e1 e2 e3 e4 k1 k2 k3 k4,
       Kv6.vehicleNumber e1 = Str k1 → Kv6.vehicleNumber e2 = Str k2 →
       Kv6.vehicleNumber e3 = Str k3 → Kv6.vehicleNumber e4 = Str k4 →
       NoDup [k1; k2; k3; k4] → "" ∉ [k1; k2; k3; k4] →
       Kv6.type e1 = Kv6.ARRIVAL → Kv6.type e2 = Kv6.INIT →
       Kv6.type e3 = Kv6.DEPARTURE → Kv6.type e4 = Kv6.END →
       let store :=
         updateVehicle e4 (updateVehicle e3 (updateVehicle e2
                                               (updateVehicle e1 []))) in
       getStatusCounts store !! "active" = Some 2
       ∧ getStatusCounts store !! "total" = Some 4).
Proof.
  assert (Htotal : ∀ m, getStatusCounts m !! "total" = Some (Map_size m)).
  { intros m. unfold getStatusCounts. rewrite fold_countVehicle_total.
    by rewrite lookup_insert_ne, lookup_singleton_eq. }
  assert (Hactive : ∀ m, getStatusCounts m !! "active"
            = Some (length (filter (λ v, isActive (status v) = true)
                                   (Map_values m)))).
  { intros m. unfold getStatusCounts.
    rewrite (fold_countVehicle_active _ _ 0); [done|].
    by rewrite lookup_insert_eq. }
  assert (Hstatus : ∀ m ty, getStatusCounts m !! Kv6.name ty
            = if decide (ty ∈ status <$> Map_values m)
              then Some (length (filter (λ v, status v = ty) (Map_values m)))
              else None).
  { intros m ty. unfold getStatusCounts. rewrite fold_countVehicle_status.
    pose proof (name_not_active ty). pose proof (name_not_total ty).
    rewrite lookup_insert_ne, lookup_singleton_ne by done.
    pose proof (filter_status_nil ty (Map_values m)) as Hnil.
    destruct (length (filter _ (Map_values m))) eqn:E.
    - by rewrite decide_False by (by apply Hnil).
    - rewrite decide_True; [done|].
      destruct (decide (ty ∈ status <$> Map_values m)); [done|].
      by apply Hnil in n0. }
  cbn zeta. split; [apply Htotal|]. split; [apply Hactive|].
  split; [apply Hstatus|]. split.
  - intros k Hk.
    destruct (decide (k = "total")) as [|Hnt]; [by left|].
    destruct (decide (k = "active")) as [|Hna]; [by right; left|].
    right; right.
    destruct (decide (k ∈ Kv6.name <$> Kv6.values)) as [Hin|Hout].
    + apply list_elem_of_fmap in Hin as (ty & -> & _). exists ty. split; [done|].
      rewrite Hstatus in Hk. case_decide; [done|]. by destruct Hk.
    + exfalso. unfold getStatusCounts in Hk.
      rewrite fold_countVehicle_other in Hk; [| done |].
      * rewrite lookup_insert_ne, lookup_singleton_ne in Hk by done.
        by destruct Hk.
      * intros ty ->. apply Hout. apply list_elem_of_fmap. exists ty.
        split; [done|]. destruct ty; cbn; set_solver.
  - intros e1 e2 e3 e4 k1 k2 k3 k4 H1 H2 H3 H4 Hnd Hne T1 T2 T3 T4.
    set (store := updateVehicle e4 _).
    assert (Ht : ∀ k, k ∈ [k1; k2; k3; k4] → truthy (Str k) = true).
    { intros k Hk. destruct k; [|done]. exfalso. by apply Hne. }
    apply NoDup_cons in Hnd as [N1 Hnd]. apply NoDup_cons in Hnd as [N2 Hnd].
    apply NoDup_cons in Hnd as [N3 _].
    rewrite !not_elem_of_cons in N1. rewrite !not_elem_of_cons in N2.
    rewrite !not_elem_of_cons in N3.
    destruct N1 as (N12 & N13 & N14 & _), N2 as (N23 & N24 & _), N3 as (N34 & _).
    assert (Hstore : Map_values store
              = [merge (seed e1) e1; merge (seed e2) e2;
                 merge (seed e3) e3; merge (seed e4) e4]).
    { subst store. unfold updateVehicle.
      rewrite H1, H2, H3, H4, !Ht by set_solver. cbn.
      apply String.eqb_neq in N12, N13, N14, N23, N24, N34.
      rewrite (String.eqb_sym k2 k1), N12. cbn.
      rewrite (String.eqb_sym k3 k1), N13. cbn.
      rewrite (String.eqb_sym k3 k2), N23. cbn.
      rewrite (String.eqb_sym k4 k1), N14. cbn.
      rewrite (String.eqb_sym k4 k2), N24. cbn.
      by rewrite (String.eqb_sym k4 k3), N34. }
    rewrite Hactive, Htotal. unfold Map_size.
    replace (length store) with (length (Map_values store))
      by (unfold Map_values; apply length_map).
    rewrite Hstore. cbn -[isActive]. unfold merge; cbn -[isActive].
    by rewrite T1, T2, T3, T4.
Qed.

Lemma Map_get_value k m s : Map_get k m = Some s → s ∈ Map_values m.
Proof.
  unfold Map_values. induction m as [|[k' v'] m IH]; [done|]. cbn.
  destruct (same_key k k'); [intros [= ->]; by left|].
  intros H. right. by apply IH.
Qed.

Lemma Map_set_values k v m s :
  s ∈ Map_values (Map_set k v m) → s = v ∨ s ∈ Map_values m.
Proof.
  unfold Map_values. induction m as [|[k' v'] m IH]; cbn.
  - intros [->|H]%elem_of_cons; [by left|by apply elem_of_nil in H].
  - destruct (same_key k k'); cbn.
    + intros [->|H]%elem_of_cons; [by left|]. right. by right.
    + intros [->|H]%elem_of_cons; [right; by left|].
      destruct (IH H) as [->|H']; [by left|]. right. by right.
Qed.

(** A state of the store after an update was there before, or is the
    update merged over the state that was there, or over a fresh one. *)
Lemma updateVehicle_values u vehicles s :
  s ∈ Map_values (updateVehicle u vehicles) →
  s ∈ Map_values vehicles
  ∨ ∃ old, (old = seed u ∨ old ∈ Map_values vehicles) ∧ s = merge old u.
Proof.
  unfold updateVehicle. destruct (truthy (Kv6.vehicleNumber u)); [|by left].
  cbn [negb]. intros [->|H]%Map_set_values; [|by left]. right.
  destruct (Map_get _ vehicles) as [old|] eqn:Eg.
  - exists old. split; [right; by eapply Map_get_value|done].
  - exists (seed u). split; [by left|done].
Qed.

(** What a store holds after a list of events: each status and each
    occupancy is that of one of the events, or was in the store before. *)
Lemma updates_keep_what_events_carry events vehicles :
  Forall (λ s,
            (s ∈ Map_values vehicles
             ∨ ∃ u, u ∈ events ∧ status s = Kv6.type u)
            ∧ ∀ x, occupancy s = Some x →
                (∃ s0, s0 ∈ Map_values vehicles ∧ occupancy s0 = Some x)
                ∨ ∃ u, u ∈ events ∧ Kv6.occupancy u = Some x)
    (Map_values (fold_left (λ m e, updateVehicle e m) events vehicles)).
Proof.
  revert vehicles. induction events as [|u us IH]; intros vehicles.
  - cbn. apply Forall_forall. intros s Hs. split; [by left|].
    intros x Hx. left. by exists s.
  - cbn [fold_left]. eapply Forall_impl; [apply IH|]. cbn beta.
    intros s [Hst Hocc]. split.
    + destruct Hst as [Hin|(u' & Hu' & Hs)].
      * apply updateVehicle_values in Hin as [Hin|(old & _ & ->)];
          [by left|]. right. exists u. split; [by left|done].
      * right. exists u'. split; [by right|done].
    + intros x Hx. destruct (Hocc x Hx) as [(s0 & Hin & H0)|(u' & Hu' & H')].
      * apply updateVehicle_values in Hin as [Hin|(old & Hold & ->)].
        -- left. by exists s0.
        -- cbn in H0. unfold spread_if_defined in H0.
           destruct (Kv6.occupancy u) as [o|] eqn:Eo.
           ++ right. exists u. split; [by left|]. by rewrite Eo.
           ++ destruct Hold as [->|Hold]; [done|]. left. by exists old.
      * right. exists u'. split; [by right|done].
Qed.

(** C8 (as amended).  Every event [parseXml] returns on a document was
    made from an element of the document, and its type is the one named by
    the element's tag: one of the nine.  The occupancy of an event, when
    there is one, is [Number] of the truthy occupancy of that element, with
    no check of its range.  The store keeps what the events carry: after
    any events each status and each occupancy is that of one of them (or
    was stored before), so the stored occupancies lie within 0 and 5 as
    long as those of the events do. *)
Theorem type_is_known_and_occupancy_is_unchecked convert parse xml op
  entries parsed :
  blank xml = false →
  parse xml = Returns parsed →
  Xml2js.holds parsed (Xml2js.element entries) →
  Forall (λ e, Xml2js.is_element_value e.2 = true) entries →
  Forall (λ e, ∃ ty m,
            (Kv6.name ty, m) ∈ entries
            ∧ Parser.normalizeMessage convert (ObjectUtil.normalizeKeys m) ty op
              = Returns e
            ∧ Kv6.type e = ty ∧ ty ∈ Kv6.values
            ∧ ∀ x, Kv6.occupancy e = Some x →
                truthy (prop (ObjectUtil.normalizeKeys m) "occupancy") = true
                ∧ Number (prop (ObjectUtil.normalizeKeys m) "occupancy")
                  = Returns x)
    (Parser.parseXml convert parse xml op)
  ∧ (∀ events vehicles,
       Forall (λ s,
                 status s ∈ Kv6.values
                 ∧ (s ∈ Map_values vehicles
                    ∨ ∃ u, u ∈ events ∧ status s = Kv6.type u)
                 ∧ ∀ x, occupancy s = Some x →
                     (∃ s0, s0 ∈ Map_values vehicles ∧ occupancy s0 = Some x)
                     ∨ ∃ u, u ∈ events ∧ Kv6.occupancy u = Some x)
         (Map_values (fold_left (λ m e, updateVehicle e m) events vehicles)))
  ∧ (∀ events vehicles,
       Forall (λ u, ∀ x, Kv6.occupancy u = Some x → Kv6.within_0_5 x = true)
         events →
       Forall (λ s, ∀ x, occupancy s = Some x → Kv6.within_0_5 x = true)
         (Map_values vehicles) →
       Forall (λ s, ∀ x, occupancy s = Some x → Kv6.within_0_5 x = true)
         (Map_values (fold_left (λ m e, updateVehicle e m) events vehicles))).
Proof.
  intros Hb Hp Hdoc Hall.
  assert (Hvalues : ∀ ty, ty ∈ Kv6.values).
  { intros ty. unfold Kv6.values. destruct ty; set_solver. }
  split; [|split].
  - eapply Forall_impl;
      [by apply (ParserFacts.parseXml_events_from_document
                   convert parse xml op entries parsed)|].
    cbn beta. intros e (ty & m & Hin & He). exists ty, m.
    split; [done|]. split; [done|].
    apply ParserFacts.normalizeMessage_returns in He as (_ & b & Hbase & Hpos).
    apply ParserFacts.base_returns in Hbase
      as (_ & Hty & _ & _ & _ & _ & _ & _ & _ & _ & Hocc).
    destruct (Parser.defined _ && Parser.defined _).
    + destruct Hpos as (x & y & _ & _ & Hpos).
      destruct (convert x y).
      * destruct Hpos as (occ & Ho & ->). cbn.
        split; [done|]. split; [done|]. intros o ->.
        apply ParserFacts.coerce_if_truthy_returns in Ho.
        destruct (truthy _); [|done].
        destruct Ho as (o' & Ho' & [= <-]). by split.
      * subst e. split; [done|]. split; [done|]. intros o Ho. congruence.
    + subst e. split; [done|]. split; [done|]. intros o Ho. congruence.
  - intros events vehicles. eapply Forall_impl;
      [apply updates_keep_what_events_carry|].
    cbn beta. intros s [H1 H2]. split; [apply Hvalues|by split].
  - intros events vehicles Hev Hm.
    rewrite Forall_forall in Hev. rewrite Forall_forall in Hm.
    apply Forall_forall. intros s Hs x Hx.
    pose proof (updates_keep_what_events_carry events vehicles) as Hk.
    rewrite Forall_forall in Hk.
    destruct (proj2 (Hk s Hs) x Hx) as [(s0 & Hin & H0)|(u & Hu & H0)].
    + by eapply Hm.
    + by eapply Hev.
Qed.

(** *** The claims at concrete events *)

Import Samples.

(** C1, witness: event A sets the stop code "X", event B for the same
    vehicle has none; the state keeps "X" and takes status and lastUpdated
    from B. *)
Lemma updateVehicle_merges_truthy_fields_witness :
  ∃ new,
    Map_get (Str "1001") (updateVehicle eventB (updateVehicle eventA []))
    = Some new
    ∧ stopCode new = Str "X"
    ∧ status new = Kv6.DEPARTURE
    ∧ lastUpdated new = Kv6.timestamp eventB.
Proof.
  destruct (updateVehicle_merges_truthy_fields eventB
              (updateVehicle eventA []) (merge (seed eventA) eventA)
              eq_refl eq_refl)
    as (new & Hget & Hstatus & Hlast & Hstop & _).
  exists new. split; [exact Hget|]. split; [exact (Hstop eq_refl)|].
  split; [exact Hstatus|exact Hlast].
Defined.

(** C1, counterexample.  Event C carries a stop code (the empty text) and a
    latitude (zero); applied after event A, it overwrites neither: the
    state still has the stop code "X" and the latitude 52.125. *)
Lemma falsy_fields_do_not_overwrite :
  Kv6.stopCode eventC = Str ""
  ∧ Kv6.latitude eventC = Some 0%float
  ∧ ∃ s, Map_get (Str "1001") (updateVehicle eventC (updateVehicle eventA []))
         = Some s
         ∧ stopCode s = Str "X"
         ∧ latitude s = Some 52.125%float
         ∧ status s = Kv6.ONROUTE.
Proof. split; [done|]. split; [done|]. eexists. by split; [reflexivity|]. Qed.

(** C9, witness: vehicles 1 to 4 with statuses ARRIVAL, INIT, DEPARTURE,
    END. *)
Lemma getStatusCounts_counts_witness :
  let store :=
    updateVehicle (plainEvent "4" Kv6.END)
      (updateVehicle (plainEvent "3" Kv6.DEPARTURE)
         (updateVehicle (plainEvent "2" Kv6.INIT)
            (updateVehicle (plainEvent "1" Kv6.ARRIVAL) []))) in
  getStatusCounts store !! "active" = Some 2
  ∧ getStatusCounts store !! "total" = Some 4.
Proof.
  apply (proj2 (proj2 (proj2 (proj2 (getStatusCounts_counts [])))))
    with (k1 := "1") (k2 := "2") (k3 := "3") (k4 := "4");
    try reflexivity; compute_done.
Defined.

(** C8, witness: a message at the origin with the occupancy "3"; the
    event carries 3, and so does the store after it. *)
Lemma type_is_known_and_occupancy_is_unchecked_witness :
  let events :=
    Parser.parseXml referenceConverter
      (pushed seatedText [("ONSTOP", seated)])
      (units (pushText seatedText)) "ARR" in
  Forall (λ e, ∃ ty m,
            (Kv6.name ty, m) ∈ [("ONSTOP", seated)]
            ∧ Parser.normalizeMessage referenceConverter
                (ObjectUtil.normalizeKeys m) ty "ARR" = Returns e
            ∧ Kv6.type e = ty ∧ ty ∈ Kv6.values
            ∧ ∀ x, Kv6.occupancy e = Some x →
                truthy (prop (ObjectUtil.normalizeKeys m) "occupancy") = true
                ∧ Number (prop (ObjectUtil.normalizeKeys m) "occupancy")
                  = Returns x)
    events
  ∧ map Kv6.occupancy events = [Some 3%float]
  ∧ Forall (λ s, ∀ x, occupancy s = Some x → Kv6.within_0_5 x = true)
      (Map_values (fold_left (λ m e, updateVehicle e m) events []))
  ∧ map occupancy
      (Map_values (fold_left (λ m e, updateVehicle e m) events []))
    = [Some 3%float].
Proof.
  destruct (type_is_known_and_occupancy_is_unchecked referenceConverter
              (pushed seatedText [("ONSTOP", seated)])
              (units (pushText seatedText)) "ARR" [("ONSTOP", seated)]
              (Xml2js.enveloped (pushEnvelope [("ONSTOP", seated)])))
    as (Hevents & _ & Hstore).
  - reflexivity.
  - reflexivity.
  - right. exists (pushEnvelope [("ONSTOP", seated)]). split; reflexivity.
  - repeat constructor.
  - split; [exact Hevents|]. split; [reflexivity|]. split; [|reflexivity].
    apply Hstore.
    + repeat constructor. intros x H. injection H as <-. reflexivity.
    + constructor.
Defined.

(** C8, counterexample.  The message at the origin has the occupancy "6";
    the event [parseXml] returns carries the occupancy 6, which is not
    within 0 and 5, and so does the state stored for it. *)
Lemma occupancy_six_is_carried :
  map Kv6.occupancy
    (Parser.parseXml referenceConverter
       (pushed atOriginText [("ARRIVAL", atOrigin)])
       (units (pushText atOriginText)) "ARR")
  = [Some 6%float]
  ∧ Kv6.within_0_5 6%float = false
  ∧ map occupancy
      (Map_values
         (fold_left (λ m e, updateVehicle e m)
            (Parser.parseXml referenceConverter
               (pushed atOriginText [("ARRIVAL", atOrigin)])
               (units (pushText atOriginText)) "ARR") []))
    = [Some 6%float].
Proof. repeat split; reflexivity. Qed.

End StateFacts.

(* ===================================================================== *)
(** ** Facts about event distribution *)
(* ===================================================================== *)

Module DistributorFacts.
Import JS EventBus ApiServer.
Local Open Scope list_scope.

(** *** emit *)

Lemma callListeners_app {Data World} (pre post : list (@listener Data World))
  data w w1 :
  callListeners pre data w = Normal tt w1 →
  callListeners (pre ++ post) data w = callListeners post data w1.
Proof.
  revert w. induction pre as [|l pre IH]; intros w; cbn.
  - by intros [= ->].
  - destruct (l data w) as [[] w'|e w']; [apply IH|done].
Qed.

(** *** broadcastSSE *)

Lemma send_never_throwing c m w data :
  (∀ t s, throws c t s = false) →
  stringify m = Returns data →
  send c m w = Normal tt (w ++ ((cid c,.) <$> chunks m data)).
Proof.
  intros Hc Hs. unfold send, chunks, write. rewrite Hs.
  destruct (truthy (Str (mtype m))); rewrite !Hc; cbn; [|done].
  by rewrite <- app_assoc.
Qed.

Lemma send_extends c m w :
  ∃ t, match send c m w with Normal _ w' | Abrupt _ w' => w' = w ++ t end.
Proof.
  unfold send, write.
  destruct (truthy (Str (mtype m))).
  - destruct (throws c w _); [by exists []; rewrite app_nil_r|].
    destruct (stringify m); [|by eexists].
    destruct (throws c _ _); [by eexists|].
    eexists. by rewrite <- app_assoc.
  - destruct (stringify m); [|by exists []; rewrite app_nil_r].
    destruct (throws c _ _); [by exists []; rewrite app_nil_r|by eexists].
Qed.

Lemma forClients_extends clients m w d :
  ∃ t, (forClients clients m w d).1 = w ++ t.
Proof.
  revert w d. induction clients as [|c clients IH]; intros w d; cbn.
  - exists []. by rewrite app_nil_r.
  - destruct (send_extends c m w) as [t Ht].
    destruct (send c m w) as [[] w'|e w']; subst w'.
    + destruct (IH (w ++ t) d) as [t' Ht'].
      exists (t ++ t'). by rewrite Ht', app_assoc.
    + destruct (IH (w ++ t) (d ++ [cid c])) as [t' Ht'].
      exists (t ++ t'). by rewrite Ht', app_assoc.
Qed.

(** A client whose writes succeed is sent the chunks, wherever it stands in
    the set and whatever happens to the clients before and after it. *)
Lemma forClients_delivers clients m w d c data :
  c ∈ clients →
  (∀ t s, throws c t s = false) →
  stringify m = Returns data →
  ∃ t1 t2, (forClients clients m w d).1
           = t1 ++ ((cid c,.) <$> chunks m data) ++ t2.
Proof.
  intros Hin Hc Hs. revert w d.
  induction clients as [|x clients IH]; intros w d; [by apply elem_of_nil in Hin|].
  apply elem_of_cons in Hin as [<-|Hin]; cbn.
  - rewrite (send_never_throwing c m w data Hc Hs).
    destruct (forClients_extends clients m (w ++ ((cid c,.) <$> chunks m data)) d)
      as [t Ht].
    exists w, t. by rewrite Ht, <- app_assoc.
  - destruct (send x m w) as [[] w'|e w']; by apply IH.
Qed.

(** The clients put on [disconnectedClients] are clients whose [try] threw. *)
Lemma forClients_disconnected clients m w d i :
  i ∈ (forClients clients m w d).2 →
  i ∈ d ∨ ∃ x w0 e w1, x ∈ clients ∧ cid x = i ∧ send x m w0 = Abrupt e w1.
Proof.
  revert w d. induction clients as [|x clients IH]; intros w d; cbn; [by left|].
  destruct (send x m w) as [[] w'|e w'] eqn:E; intros Hi.
  - destruct (IH _ _ Hi) as [?|(y & w0 & e0 & w1 & Hy & Hc & Hsend)]; [by left|].
    right. exists y, w0, e0, w1. by rewrite elem_of_cons; auto.
  - destruct (IH _ _ Hi) as [Hd|(y & w0 & e0 & w1 & Hy & Hc & Hsend)].
    + apply elem_of_app in Hd as [?|Hx]; [by left|].
      apply list_elem_of_singleton in Hx as ->.
      right. exists x, w, e, w'. by rewrite elem_of_cons; auto.
    + right. exists y, w0, e0, w1. by rewrite elem_of_cons; auto.
Qed.

Lemma NoDup_fmap_elem_eq {A B} (f : A → B) (l : list A) x y :
  NoDup (f <$> l) → x ∈ l → y ∈ l → f x = f y → x = y.
Proof.
  induction l as [|a l IH]; [by intros _ ?%elem_of_nil|].
  rewrite fmap_cons, NoDup_cons. intros [Ha Hl].
  rewrite !elem_of_cons. intros [->|Hx] [->|Hy] Hf; auto.
  - exfalso. apply Ha. rewrite Hf. by apply list_elem_of_fmap_2.
  - exfalso. apply Ha. rewrite <- Hf. by apply list_elem_of_fmap_2.
Qed.

(** *** The claim on failure isolation *)

(** C5 (as amended).  [TypedEventEmitter.emit] delivers in registration
    order up to the first listener that raises: what that listener throws
    leaves [emit], and the listeners registered after it are not called.
    Failures are isolated one level down, per SSE client: [broadcastSSE]
    returns whatever the clients do, a client whose writes succeed is sent
    the event and stays in the set, wherever it stands among clients whose
    writes throw. *)
Theorem failures_are_isolated_per_client_only :
  (∀ (Data World : Type) (bus : @TypedEventEmitter Data World)
     event data w pre l post e w1 w2,
     bus event = pre ++ l :: post →
     callListeners pre data w = Normal tt w1 →
     l data w1 = Abrupt e w2 →
     emit event data bus w = Abrupt e w2)
  ∧ (∀ clients m w c data,
       NoDup (cid <$> clients) →
       c ∈ clients →
       (∀ t s, throws c t s = false) →
       stringify m = Returns data →
       (∃ t1 t2, (broadcastSSE clients m w).1
                 = t1 ++ ((cid c,.) <$> chunks m data) ++ t2)
       ∧ c ∈ (broadcastSSE clients m w).2).
Proof.
  split.
  - intros Data World bus event data w pre l post e w1 w2 Hbus Hpre Hl.
    unfold emit. rewrite Hbus, (callListeners_app pre _ data w w1 Hpre).
    cbn. by rewrite Hl.
  - intros clients m w c data Hnd Hin Hc Hs.
    unfold broadcastSSE. destruct clients as [|x xs] eqn:Ecl.
    { by apply elem_of_nil in Hin. }
    rewrite <- Ecl in *. clear Ecl x xs.
    pose proof (forClients_delivers clients m w [] c data Hin Hc Hs) as Hdel.
    pose proof (forClients_disconnected clients m w [] (cid c)) as Hdis.
    destruct (forClients clients m w []) as [w' d]. cbn in *.
    split; [done|].
    unfold deleteAll. apply list_elem_of_filter. split; [|done].
    intros Hd. destruct (Hdis Hd) as [?%elem_of_nil|(x & w0 & e & w1 & Hx & Hcid & Hsend)];
      [done|].
    assert (x = c) as -> by by eapply (NoDup_fmap_elem_eq cid clients).
    by rewrite (send_never_throwing c m w0 data Hc Hs) in Hsend.
Qed.

(** *** The claim at concrete subscribers *)

Import Samples.

(** C5, witness: the bus with the raising subscriber registered first, and
    a client whose writes throw followed by one whose writes succeed. *)
Lemma failures_are_isolated_per_client_only_witness :
  emit KV6_UPDATE "event" raisingThenRecording []
  = Abrupt (Thrown "subscriber failed") []
  ∧ (∃ t1 t2, (broadcastSSE [brokenClient; healthyClient] vehicleUpdate []).1
              = t1 ++ ((cid healthyClient,.) <$> chunks vehicleUpdate "{}") ++ t2)
  ∧ healthyClient ∈ (broadcastSSE [brokenClient; healthyClient] vehicleUpdate []).2.
Proof.
  split.
  - apply (proj1 failures_are_isolated_per_client_only string (list string)
             raisingThenRecording KV6_UPDATE "event"%string [] [] raising
             [recording] (Thrown "subscriber failed") [] []);
      reflexivity.
  - apply (proj2 failures_are_isolated_per_client_only
             [brokenClient; healthyClient] vehicleUpdate [] healthyClient "{}").
    + compute_done.
    + right; left.
    + reflexivity.
    + reflexivity.
Defined.

(** C5, counterexample.  With a raising subscriber registered before a
    recording one, [emit] ends with the exception of the first, and the
    second has recorded nothing; registered alone, it records the event. *)
Lemma emit_propagates_and_stops :
  emit KV6_UPDATE "event" raisingThenRecording []
  = Abrupt (Thrown "subscriber failed") []
  ∧ emit KV6_UPDATE "event" (on KV6_UPDATE recording (λ _, [])) []
    = Normal true ["event"%string].
Proof. split; reflexivity. Qed.

End DistributorFacts.

(* ===================================================================== *)
(** ** Facts about the content decoder *)
(* ===================================================================== *)

Module ConnectorFacts.
Import JS Connector.
Local Open Scope list_scope.
Local Open Scope Z_scope.

(** [includes] is [indexOf] not being -1. *)
Lemma includes_indexOf m s : includes m s = (0 <=? indexOf m s).
Proof.
  induction s as [|a s IH]; cbn [includes indexOf].
  - by destruct (starts_with m []).
  - destruct (starts_with m (a :: s)); [done|]. cbn [orb].
    rewrite IH. destruct (indexOf m s <? 0) eqn:E.
    + apply Z.ltb_lt in E. apply Z.leb_gt. lia.
    + apply Z.ltb_ge in E. transitivity true; [by apply Z.leb_le|].
      symmetry. apply Z.leb_le. lia.
Qed.

Lemma looksLikeXml_xmlStartIndex s :
  looksLikeXml s = (0 <=? xmlStartIndex s).
Proof.
  unfold looksLikeXml, xmlStartIndex. rewrite !includes_indexOf.
  destruct (0 <=? indexOf (units "<?xml") s) eqn:E1,
           (0 <=? indexOf (units "<VV_TM_PUSH") s) eqn:E2,
           (0 <=? indexOf (units "<KV6posinfo") s) eqn:E3; cbn [orb];
    rewrite ?Z.leb_le, ?Z.leb_gt in *; symmetry;
    rewrite ?Z.leb_le, ?Z.leb_gt; lia.
Qed.

(** On a text without marker the fallback stage returns the text. *)
Lemma fallback_without_marker s : looksLikeXml s = false → fallback s = s.
Proof.
  rewrite looksLikeXml_xmlStartIndex. unfold fallback. by intros ->.
Qed.

Section Facts.
Variable gunzipAsync inflateAsync : Buffer → outcome Buffer.
Variable utf8 : Buffer → text.

Lemma tryEncodings_None buffer :
  tryEncodings utf8 buffer = None → looksLikeXml (latin1 buffer) = false.
Proof.
  unfold tryEncodings. cbn [List.find].
  destruct (looksLikeXml (utf8 buffer)); [done|].
  by destruct (looksLikeXml (latin1 buffer)).
Qed.


(** *** The claims on the decoder *)

(** C6.  For every byte buffer, whatever the decompressors and the utf8
    decoding do with it, [decodeContent] returns a text and does not throw;
    when the decompressor rejects a buffer that starts with the gzip magic
    number, the text is the latin1 decoding of the buffer. *)
Theorem decodeContent_always_returns buffer :
  (∃ decoded,
     decodeContent gunzipAsync inflateAsync utf8 buffer = Returns decoded)
  ∧ (∀ e, (byte_is buffer 0 31 && byte_is buffer 1 139 = true)%bool →
          gunzipAsync buffer = Throws e →
          decodeContent gunzipAsync inflateAsync utf8 buffer
          = Returns (latin1 buffer)).
Proof.
  split.
  - unfold decodeContent.
    destruct (decodeBody gunzipAsync inflateAsync utf8 buffer); by eexists.
  - intros e Hmagic Hthrow. unfold decodeContent, decodeBody.
    by rewrite Hmagic, Hthrow.
Qed.

(** The scan of the fallback stage, on a text that contains a marker, cuts
    at the greatest of the markers' first positions. *)
Lemma fallback_cuts_at_greatest_first_position s :
  looksLikeXml s = true →
  ∃ m, m ∈ markers
       ∧ 0 ≤ indexOf m s
       ∧ (∀ m', m' ∈ markers → indexOf m' s ≤ indexOf m s)
       ∧ fallback s = substring (indexOf m s) s.
Proof.
  intros Hs. rewrite looksLikeXml_xmlStartIndex in Hs.
  apply Z.leb_le in Hs. unfold fallback.
  rewrite (proj2 (Z.leb_le _ _) Hs).
  unfold xmlStartIndex in *. unfold markers.
  set (i1 := indexOf (units "<?xml") s) in *.
  set (i2 := indexOf (units "<VV_TM_PUSH") s) in *.
  set (i3 := indexOf (units "<KV6posinfo") s) in *.
  assert (Hmax : Z.max (Z.max i1 i2) i3 = i1 ∧ i2 ≤ i1 ∧ i3 ≤ i1
                 ∨ Z.max (Z.max i1 i2) i3 = i2 ∧ i1 ≤ i2 ∧ i3 ≤ i2
                 ∨ Z.max (Z.max i1 i2) i3 = i3 ∧ i1 ≤ i3 ∧ i2 ≤ i3) by lia.
  destruct Hmax as [(E & ? & ?)|[(E & ? & ?)|(E & ? & ?)]]; rewrite E in *.
  - exists (units "<?xml").
    split; [set_solver|]. split; [done|]. split; [|done].
    intros m'. rewrite !elem_of_cons, elem_of_nil.
    intros [->|[->|[->|[]]]]; fold i1 i2 i3; lia.
  - exists (units "<VV_TM_PUSH").
    split; [set_solver|]. split; [done|]. split; [|done].
    intros m'. rewrite !elem_of_cons, elem_of_nil.
    intros [->|[->|[->|[]]]]; fold i1 i2 i3; lia.
  - exists (units "<KV6posinfo").
    split; [set_solver|]. split; [done|]. split; [|done].
    intros m'. rewrite !elem_of_cons, elem_of_nil.
    intros [->|[->|[->|[]]]]; fold i1 i2 i3; lia.
Qed.



End Facts.

(** *** The claims at concrete buffers *)

Import Samples.

(** C6, witness: two bytes of gzip magic and a decompressor that rejects
    them. *)
Lemma decodeContent_always_returns_witness :
  decodeContent rejecting rejecting utf8OfAscii [Byte.x1f; Byte.x8b]
  = Returns (latin1 [Byte.x1f; Byte.x8b]).
Proof.
  exact (proj2 (decodeContent_always_returns rejecting rejecting utf8OfAscii
                  [Byte.x1f; Byte.x8b])
           (Thrown "incorrect header check") eq_refl eq_refl).
Defined.


(** A text with a marker does not get to the fallback stage: the buffer of
    a text with two markers is returned whole by the loop over the
    encodings. *)
Lemma marked_text_stops_at_encodings :
  stage_of rejecting utf8OfAscii (list_byte_of_string twoMarkers) = Encodings
  ∧ decodeContent rejecting rejecting utf8OfAscii (list_byte_of_string twoMarkers)
    = Returns (units twoMarkers).
Proof. split; reflexivity. Qed.

End ConnectorFacts.

(* ===================================================================== *)
(** ** More facts: normalizeKeys *)
(* ===================================================================== *)

Module ObjectUtilFacts.
Import JS ObjectUtil.
Local Open Scope list_scope.

(** Induction on values, through arrays and objects. *)
Lemma value_nested_ind (P : value → Prop) :
  P Undefined →
  (∀ s, P (Str s)) →
  (∀ items, Forall P items → P (Arr items)) →
  (∀ props, Forall (λ kv, P kv.2) props → P (Obj props)) →
  ∀ v, P v.
Proof.
  intros HU HS HA HO. fix IH 1. intros [|s|items|props].
  - exact HU.
  - apply HS.
  - apply HA. induction items as [|x xs IHxs]; constructor; [apply IH|exact IHxs].
  - apply HO. induction props as [|[k x] xs IHxs]; constructor;
      [apply IH|exact IHxs].
Qed.

Lemma dash_to_underscore_idemp k :
  dash_to_underscore (dash_to_underscore k) = dash_to_underscore k.
Proof.
  induction k as [|c k IH]; [done|]. cbn. rewrite IH. f_equal.
  destruct (Ascii.eqb c "-") eqn:E; [done|]. by rewrite E.
Qed.

Lemma dash_to_underscore_no_dash k : no_dash (dash_to_underscore k) = true.
Proof.
  unfold no_dash. induction k as [|c k IH]; [done|]. cbn. rewrite IH.
  destruct (Ascii.eqb c "-") eqn:E; [done|]. by rewrite E.
Qed.

(** [fromEntries]: what a key holds is the value of its last entry. *)
Lemma lookup_fold_set_prop k es acc :
  lookup_prop k (fold_left (λ o kv, set_prop kv.1 kv.2 o) es acc)
  = from_option (λ kv, Some kv.2) (lookup_prop k acc)
      (last (filter (λ kv, kv.1 = k) es)).
Proof.
  revert acc. induction es as [|[k' v] es IH]; intros acc; [done|].
  cbn [fold_left]. rewrite IH, ParserFacts.lookup_set_prop, filter_cons. cbn.
  destruct (String.eqb_spec k k') as [->|Hne].
  - rewrite decide_True by done.
    destruct (filter _ es) as [|e l] eqn:E; [done|].
    rewrite last_cons_cons.
    destruct (last (e :: l)) eqn:El; [done|]. by apply last_None in El.
  - by rewrite decide_False by congruence.
Qed.

Lemma set_prop_Forall (P : string * value → Prop) k v ps :
  P (k, v) → Forall P ps → Forall P (set_prop k v ps).
Proof.
  intros Hkv. induction 1 as [|[k' v'] ps Hx Hps IH]; cbn.
  - by repeat constructor.
  - destruct (String.eqb k k'); by constructor.
Qed.

Lemma fromEntries_Forall (P : string * value → Prop) es :
  Forall P es → Forall P (fromEntries es).
Proof.
  unfold fromEntries. intros Hes.
  assert (Hacc : Forall P []) by constructor. revert Hacc.
  generalize (@nil (string * value)).
  induction Hes as [|[k v] es Hx Hes IH]; intros acc Hacc; [done|].
  cbn. apply IH. by apply set_prop_Forall.
Qed.

Lemma set_prop_fresh k v ps :
  k ∉ ps.*1 → set_prop k v ps = ps ++ [(k, v)].
Proof.
  induction ps as [|[k' v'] ps IH]; [done|]. cbn.
  rewrite not_elem_of_cons. intros [Hne Hnin].
  destruct (String.eqb_spec k k'); [done|]. by rewrite IH.
Qed.

Lemma set_prop_keys_NoDup k v ps : NoDup ps.*1 → NoDup (set_prop k v ps).*1.
Proof.
  induction ps as [|[k' v'] ps IH]; cbn.
  - intros _. apply NoDup_singleton.
  - rewrite NoDup_cons. intros [Hnin Hnd].
    destruct (String.eqb_spec k k') as [->|Hne]; cbn.
    + by apply NoDup_cons.
    + apply NoDup_cons. split; [|by apply IH].
      intros Hin. apply Hnin. clear -Hin Hne.
      induction ps as [|[k0 v0] ps IH]; cbn in *.
      * apply list_elem_of_singleton in Hin. congruence.
      * destruct (String.eqb_spec k k0) as [->|]; cbn in *;
          rewrite elem_of_cons in *; destruct Hin; auto.
Qed.

Lemma fromEntries_keys_NoDup es : NoDup (fromEntries es).*1.
Proof.
  unfold fromEntries.
  assert (Hacc : NoDup (@nil (string * value)).*1) by constructor. revert Hacc.
  generalize (@nil (string * value)).
  induction es as [|[k v] es IH]; intros acc Hacc; [done|].
  cbn. apply IH. by apply set_prop_keys_NoDup.
Qed.

(** Entries with distinct keys are an object as they are. *)
Lemma fromEntries_NoDup es : NoDup es.*1 → fromEntries es = es.
Proof.
  unfold fromEntries. intros Hnd.
  enough (H : ∀ acc, (∀ k, k ∈ acc.*1 → k ∉ es.*1) →
                fold_left (λ o kv, set_prop kv.1 kv.2 o) es acc = acc ++ es).
  { apply (H []). by intros k ?%elem_of_nil. }
  induction es as [|[k v] es IH]; intros acc Hdisj.
  - by rewrite app_nil_r.
  - cbn in *. apply NoDup_cons in Hnd as [Hk Hnd].
    rewrite set_prop_fresh.
    + rewrite IH; [by rewrite <- app_assoc|done|].
      intros k'. rewrite fmap_app, elem_of_app. cbn.
      intros [Hin|Hin%list_elem_of_singleton].
      * specialize (Hdisj k' Hin). rewrite not_elem_of_cons in Hdisj.
        by destruct Hdisj.
      * by subst.
    + intros Hin. specialize (Hdisj k Hin). rewrite not_elem_of_cons in Hdisj.
      by destruct Hdisj.
Qed.

Lemma normalizeKeys_own_last props k :
  own (normalizeKeys (Obj props)) k
  = (λ kv, normalizeKeys kv.2)
    <$> last (filter (λ kv, dash_to_underscore kv.1 = k) props).
Proof.
  cbn [normalizeKeys own]. unfold fromEntries.
  rewrite lookup_fold_set_prop. cbn [lookup_prop].
  induction props as [|[k' v] props IH] using rev_ind; [done|].
  rewrite map_app, !filter_app. cbn [map]. rewrite !filter_cons, !filter_nil.
  cbn [fst snd].
  destruct (decide (dash_to_underscore k' = k)) as [Hk|Hk].
  - by rewrite !last_snoc.
  - by rewrite !app_nil_r.
Qed.

(** X1.  The own property [k] of a normalized object is the normalized
    value of the last entry whose key, dashes replaced, is [k]: of two keys
    that fall together, the later wins.  The object has such a property
    exactly when some key of the original becomes [k]. *)
Theorem normalizeKeys_own props k :
  own (normalizeKeys (Obj props)) k
  = (λ kv, normalizeKeys kv.2)
    <$> last (filter (λ kv, dash_to_underscore kv.1 = k) props)
  ∧ (is_Some (own (normalizeKeys (Obj props)) k)
     ↔ ∃ key, key ∈ props.*1 ∧ dash_to_underscore key = k).
Proof.
  split; [apply normalizeKeys_own_last|].
  rewrite normalizeKeys_own_last, fmap_is_Some. split.
  - intros [[key v] Hl]. apply last_Some_elem_of in Hl.
    apply list_elem_of_filter in Hl as [Hk Hin]. exists key.
    split; [|done]. by apply (list_elem_of_fmap_2 fst) in Hin.
  - intros (key & Hin & Hk). apply list_elem_of_fmap in Hin as ([k' v] & -> & Hin).
    assert (Hf : (k', v) ∈ filter (λ kv, dash_to_underscore kv.1 = k) props)
      by (by apply list_elem_of_filter).
    destruct (last (filter _ props)) eqn:El; [done|].
    apply last_None in El. rewrite El in Hf. by apply elem_of_nil in Hf.
Qed.

(** X2.  After normalization no key contains a dash, at any depth. *)
Theorem normalizeKeys_leaves_no_dash v : dashless (normalizeKeys v) = true.
Proof.
  induction v as [|s|items IH|props IH] using value_nested_ind; [done|done|..].
  - cbn. apply forallb_forall. intros x Hx%in_map_iff.
    destruct Hx as (y & <- & Hy). rewrite Forall_forall in IH.
    apply IH. by apply list_elem_of_In.
  - cbn. apply forallb_forall. intros [k x] Hx.
    assert (Hall : Forall (λ kv, no_dash kv.1 && dashless kv.2 = true)
              (fromEntries (map (λ kv, let '(key, v) := kv in
                                       (dash_to_underscore key, normalizeKeys v))
                                props))).
    { apply fromEntries_Forall. apply Forall_forall.
      intros [k' x'] Hin%list_elem_of_In%in_map_iff.
      destruct Hin as ([k0 v0] & [= <- <-] & Hin). cbn [fst snd].
      rewrite dash_to_underscore_no_dash. cbn [andb].
      rewrite Forall_forall in IH. apply (IH (k0, v0)). by apply list_elem_of_In. }
    rewrite Forall_forall in Hall. apply (Hall (k, x)). by apply list_elem_of_In.
Qed.

(** X3.  Normalizing twice is normalizing once. *)
Theorem normalizeKeys_idempotent v :
  normalizeKeys (normalizeKeys v) = normalizeKeys v.
Proof.
  induction v as [|s|items IH|props IH] using value_nested_ind; [done|done|..].
  - cbn. f_equal. rewrite map_map. apply map_ext_in. intros x Hx.
    rewrite Forall_forall in IH. apply IH. by apply list_elem_of_In.
  - cbn [normalizeKeys].
    set (f := λ kv : string * value,
                let '(key, v) := kv in (dash_to_underscore key, normalizeKeys v)).
    assert (Hfix : Forall (λ kv, f kv = kv) (fromEntries (map f props))).
    { apply fromEntries_Forall. apply Forall_forall.
      intros [k' x'] Hin%list_elem_of_In%in_map_iff.
      destruct Hin as ([k0 v0] & [= <- <-] & Hin). cbn.
      rewrite dash_to_underscore_idemp. f_equal.
      rewrite Forall_forall in IH. apply (IH (k0, v0)). by apply list_elem_of_In. }
    f_equal.
    replace (map f (fromEntries (map f props))) with (fromEntries (map f props)).
    + apply fromEntries_NoDup, fromEntries_keys_NoDup.
    + symmetry. rewrite <- (map_id (fromEntries (map f props))) at 2.
      apply map_ext_in. intros kv Hkv. rewrite Forall_forall in Hfix.
      apply Hfix. by apply list_elem_of_In.
Qed.

End ObjectUtilFacts.

(* ===================================================================== *)
(** ** More facts: the parser *)
(* ===================================================================== *)

Module ParserMoreFacts.
Import JS Kv6 ObjectUtil Xml2js Parser.
Local Open Scope list_scope.

Section Facts.
Variable convertRdToWgs84 : number → number → conversion.
Variable parseStringPromise : text → outcome value.

Lemma filter_none {A} (P : A → Prop) `{∀ x, Decision (P x)} (l : list A) :
  Forall (λ x, ¬ P x) l → filter P l = [].
Proof.
  induction 1 as [|x l Hx _ IH]; [done|].
  by rewrite filter_cons, decide_False.
Qed.

Lemma forTypes_without_properties tys kv6 op results :
  (∀ ty, prop kv6 (name ty) = Undefined) →
  forTypes convertRdToWgs84 tys kv6 op results = Returns results.
Proof.
  intros Hk. induction tys as [|ty tys IH]; [done|].
  cbn [forTypes]. by rewrite Hk.
Qed.

(** X4.  When what the document holds as KV6posinfo is not an object - a
    text, or the array xml2js makes of several KV6posinfo elements - no
    event is returned: the elements inside are not looked at. *)
Theorem parseXml_ignores_repeated_KV6posinfo xml op parsed kv6 :
  parseStringPromise xml = Returns parsed →
  holds parsed kv6 →
  (∀ props, kv6 ≠ Obj props) →
  parseXml convertRdToWgs84 parseStringPromise xml op = [].
Proof.
  intros Hp Hdoc Hobj. unfold parseXml.
  destruct (blank xml); [done|]. rewrite Hp. cbn [mbind outcome_bind bind].
  assert (Hk : ∀ ty, prop kv6 (name ty) = Undefined).
  { intros ty0. destruct kv6; try done. by destruct (Hobj props). }
  unfold collect.
  assert (Hsel : select parsed = Returns (Some kv6) ∨ select parsed = Returns None).
  { destruct Hdoc as [->|(envelope & -> & <-)]; unfold select, bare, enveloped.
    - cbn. destruct (truthy kv6); auto.
    - destruct envelope; cbn in *; auto.
      destruct (truthy _); auto. }
  destruct Hsel as [-> | ->]; cbn [mbind outcome_bind bind]; [|done].
  by rewrite forTypes_without_properties.
Qed.

(** X5.  Every event carries the operator handed to [parseXml]; nothing in
    a message changes it. *)
Theorem parseXml_tags_events_with_operator xml op :
  Forall (λ e, operator e = op)
    (parseXml convertRdToWgs84 parseStringPromise xml op).
Proof.
  apply ParserFacts.parseXml_Forall. intros raw ty e _ He.
  apply ParserFacts.normalizeMessage_returns in He as (_ & b & Hbase & Hpos).
  apply ParserFacts.base_returns in Hbase as (Hop & _).
  destruct (defined _ && defined _); [|by subst].
  destruct Hpos as (x & y & _ & _ & Hpos).
  destruct (convertRdToWgs84 x y); [|by subst].
  by destruct Hpos as (occ & _ & ->).
Qed.

(** X6.  The feed writes the planar coordinates as rd-x and rd-y.  A message
    with these two elements (and no rd_x or rd_y beside them) is read at
    those coordinates: when the conversion of no other field throws, its
    event has a position exactly when the converter returns one for the
    numbers of the two texts. *)
Theorem dashed_coordinates_are_read props ty op sx sy :
  NoDup props.*1 →
  lookup_prop "rd-x" props = Some (Str sx) →
  lookup_prop "rd-y" props = Some (Str sy) →
  lookup_prop "rd_x" props = None →
  lookup_prop "rd_y" props = None →
  Forall (λ f, converts (prop (normalizeKeys (Obj props)) f) = true)
    ["timestamp"; "punctuality"; "vehiclenumber"; "occupancy"] →
  ∃ e, normalizeMessage convertRdToWgs84 (normalizeKeys (Obj props)) ty op
       = Returns e
    ∧ match convertRdToWgs84 (StringToNumber sx) (StringToNumber sy) with
      | Position lat lon => latitude e = Some lat ∧ longitude e = Some lon
      | ConversionError _ => latitude e = None ∧ longitude e = None
      end.
Proof.
  intros Hnd Hx Hy Hx' Hy' Hconv.
  assert (Hread : ∀ dashed plain s,
            dash_to_underscore dashed = plain → dash_to_underscore plain = plain →
            (∀ k, dash_to_underscore k = plain → k = dashed ∨ k = plain) →
            lookup_prop dashed props = Some (Str s) →
            lookup_prop plain props = None →
            prop (normalizeKeys (Obj props)) plain = Str s).
  { intros dashed plain s Hd Hpl Hinv Hl Hn.
    unfold prop. rewrite ObjectUtilFacts.normalizeKeys_own_last.
    enough (Hlast : last (filter (λ kv, dash_to_underscore kv.1 = plain) props)
                    = Some (dashed, Str s)) by (by rewrite Hlast).
    clear Hx Hy Hx' Hy' Hconv.
    induction props as [|[k v] ps IH]; [done|].
    cbn in Hl, Hn, Hnd. apply NoDup_cons in Hnd as [Hk Hnd].
    rewrite filter_cons. cbn [fst].
    destruct (String.eqb_spec plain k) as [->|Hpk]; [done|].
    destruct (String.eqb_spec dashed k) as [->|Hdk].
    - injection Hl as ->. rewrite decide_True by done.
      assert (Hnone : filter (λ kv, dash_to_underscore kv.1 = plain) ps = []).
      { apply filter_none. apply Forall_forall. intros [k' v'] Hin Hk'.
        cbn in Hk'. destruct (Hinv _ Hk') as [->| ->].
        - apply Hk. by apply (list_elem_of_fmap_2 fst) in Hin.
        - clear -Hn Hin. induction ps as [|[k0 v0] ps IH]; [by apply elem_of_nil in Hin|].
          cbn in Hn. destruct (String.eqb_spec plain k0) as [E|N]; [done|].
          apply elem_of_cons in Hin as [E|Hin]; [|by apply IH].
          by injection E as E _. }
      by rewrite Hnone.
    - rewrite decide_False.
      + by apply IH.
      + intros Hk'. destruct (Hinv _ Hk') as [->| ->]; done. }
  assert (Hinv : ∀ c k, (c = "x" ∨ c = "y")%char →
            dash_to_underscore k = String "r" (String "d" (String "_" (String c "")))
            → k = String "r" (String "d" (String "-" (String c "")))
              ∨ k = String "r" (String "d" (String "_" (String c "")))).
  { intros c k Hc Hk.
    destruct k as [|c1 [|c2 [|c3 [|c4 [|]]]]]; try discriminate Hk.
    cbn in Hk. injection Hk as H1 H2 H3 H4.
    destruct (Ascii.eqb_spec c1 "-") as [->|]; [done|].
    destruct (Ascii.eqb_spec c2 "-") as [->|]; [done|].
    destruct (Ascii.eqb_spec c4 "-") as [->|];
      [by destruct Hc as [->| ->]|].
    subst. destruct (Ascii.eqb_spec c3 "-") as [->|]; [by left|].
    right. by rewrite H3. }
  pose proof (Hread "rd-x" "rd_x" sx eq_refl eq_refl
                (λ k, Hinv "x"%char k (or_introl eq_refl)) Hx Hx') as Hrx.
  pose proof (Hread "rd-y" "rd_y" sy eq_refl eq_refl
                (λ k, Hinv "y"%char k (or_intror eq_refl)) Hy Hy') as Hry.
  apply Forall_cons in Hconv as [Ct Hconv].
  apply Forall_cons in Hconv as [Cp Hconv].
  apply Forall_cons in Hconv as [Cv Hconv].
  apply Forall_cons in Hconv as [Co _].
  destruct (ParserFacts.normalizeMessage_converts convertRdToWgs84
              (normalizeKeys (Obj props)) ty op) as [e He].
  { done. }
  { repeat constructor; try done.
    - by rewrite Hrx.
    - by rewrite Hry. }
  exists e. split; [done|].
  apply ParserFacts.normalizeMessage_returns in He as (_ & b & Hbase & Hpos).
  apply ParserFacts.base_returns in Hbase
    as (_ & _ & _ & _ & _ & _ & _ & _ & Hlat & Hlon & _).
  rewrite Hrx, Hry in Hpos. cbn [defined andb] in Hpos.
  destruct Hpos as (x & y & [= <-] & [= <-] & Hpos).
  destruct (convertRdToWgs84 _ _).
  - by destruct Hpos as (occ & _ & ->).
  - by subst e.
Qed.

End Facts.

(** *** The facts at concrete documents *)

Import Samples.

(** X4 at a push message with two KV6posinfo elements, each with an
    ARRIVAL. *)
Lemma parseXml_ignores_repeated_KV6posinfo_witness :
  parseXml referenceConverter
    (resolves repeatedPosinfoText (enveloped repeatedPosinfo))
    (units repeatedPosinfoText) "ARR"
  = [].
Proof.
  apply (parseXml_ignores_repeated_KV6posinfo referenceConverter
           (resolves repeatedPosinfoText (enveloped repeatedPosinfo))
           (units repeatedPosinfoText) "ARR" (enveloped repeatedPosinfo)
           (prop repeatedPosinfo "KV6posinfo")).
  - reflexivity.
  - right. exists repeatedPosinfo. split; reflexivity.
  - intros props H. vm_compute in H. discriminate H.
Defined.

(** X6 at the message at the projection's origin. *)
Lemma dashed_coordinates_are_read_witness :
  ∃ e, normalizeMessage referenceConverter (normalizeKeys atOrigin) ARRIVAL "ARR"
       = Returns e
    ∧ match referenceConverter (StringToNumber "155000")
                               (StringToNumber "463000") with
      | Position lat lon => latitude e = Some lat ∧ longitude e = Some lon
      | ConversionError _ => latitude e = None ∧ longitude e = None
      end.
Proof.
  apply (dashed_coordinates_are_read referenceConverter
           [("vehiclenumber", Str "1001"); ("rd-x", Str "155000");
            ("rd-y", Str "463000"); ("occupancy", Str "6");
            ("punctuality", Str "abc")] ARRIVAL "ARR" "155000" "463000").
  - apply (bool_decide_unpack _). vm_compute. reflexivity.
  - reflexivity.
  - reflexivity.
  - reflexivity.
  - reflexivity.
  - repeat constructor.
Defined.

End ParserMoreFacts.

(* ===================================================================== *)
(** ** More facts: the vehicle state store *)
(* ===================================================================== *)

Module StateMoreFacts.
Import JS State.
Local Open Scope list_scope.

Lemma same_key_text s : same_key (Str s) (Str s) = true.
Proof. cbn. apply String.eqb_refl. Qed.

Lemma Map_get_set_other k k' v m :
  same_key k k' = false → Map_get k (Map_set k' v m) = Map_get k m.
Proof.
  intros Hk. induction m as [|[k0 v0] m IH]; cbn.
  - by rewrite Hk.
  - destruct (same_key k' k0) eqn:E; cbn.
    + apply StateFacts.same_key_eq in E as <-. by rewrite Hk.
    + by rewrite IH.
Qed.

Lemma Map_get_set_same k v m :
  same_key k k = true → Map_get k (Map_set k v m) = Some v.
Proof.
  intros Hk. destruct (Map_get k m) eqn:E.
  - by eapply StateFacts.Map_get_set_present.
  - by apply StateFacts.Map_get_set_absent.
Qed.

Lemma Map_set_set k v v' m :
  same_key k k = true → Map_set k v' (Map_set k v m) = Map_set k v' m.
Proof.
  intros Hk. induction m as [|[k0 v0] m IH]; cbn.
  - by rewrite Hk.
  - destruct (same_key k k0) eqn:E; cbn; rewrite E; [done|]. by rewrite IH.
Qed.

Lemma length_Map_set k v m :
  length (Map_set k v m)
  = match Map_get k m with Some _ => length m | None => S (length m) end.
Proof.
  induction m as [|[k0 v0] m IH]; cbn; [done|].
  destruct (same_key k k0); cbn; [done|]. rewrite IH. by destruct (Map_get k m).
Qed.

Lemma merge_merge st u : merge (merge st u) u = merge st u.
Proof.
  unfold merge; cbn. f_equal.
  - unfold or_else. by destruct (truthy (Kv6.lineNumber u)).
  - by destruct (truthy (Kv6.stopCode u)).
  - unfold spread_if_truthy. destruct (Kv6.latitude u) as [x|]; [|done].
    by destruct (truthy_number x).
  - unfold spread_if_truthy. destruct (Kv6.longitude u) as [x|]; [|done].
    by destruct (truthy_number x).
  - unfold spread_if_defined. by destruct (Kv6.occupancy u).
  - unfold spread_if_defined. by destruct (Kv6.punctuality u).
Qed.

(** X7.  An update touches no vehicle but its own: the state stored under
    any other number is what it was; and an update without vehicle number
    leaves the whole store as it is. *)
Theorem updateVehicle_leaves_other_vehicles u vehicles :
  (∀ k, same_key k (Kv6.vehicleNumber u) = false →
        Map_get k (updateVehicle u vehicles) = Map_get k vehicles)
  ∧ (truthy (Kv6.vehicleNumber u) = false → updateVehicle u vehicles = vehicles).
Proof.
  split.
  - intros k Hk. unfold updateVehicle.
    destruct (truthy (Kv6.vehicleNumber u)); cbn [negb]; [|done].
    by apply Map_get_set_other.
  - intros Hf. unfold updateVehicle. by rewrite Hf.
Qed.

(** X8.  An update never removes a vehicle: for an event whose vehicle
    number is a text (or missing), the store grows by one entry when the
    number is truthy and not yet stored, and keeps its size otherwise. *)
Theorem updateVehicle_size u vehicles :
  textual (Kv6.vehicleNumber u) = true →
  Map_size (updateVehicle u vehicles)
  = if truthy (Kv6.vehicleNumber u)
    then match Map_get (Kv6.vehicleNumber u) vehicles with
         | Some _ => Map_size vehicles
         | None => S (Map_size vehicles)
         end
    else Map_size vehicles.
Proof.
  intros _. unfold updateVehicle, Map_size.
  destruct (truthy (Kv6.vehicleNumber u)); cbn [negb]; [|done].
  apply length_Map_set.
Qed.

(** X9.  A vehicle seen for the first time, its number being a text, is
    stored behind the others, with what the event carries: the line number
    'Unknown' when the event has none, a stop code and coordinates only
    when they are truthy, and neither line name nor stop name. *)
Theorem updateVehicle_first_seen u vehicles :
  textual (Kv6.vehicleNumber u) = true →
  truthy (Kv6.vehicleNumber u) = true →
  Map_get (Kv6.vehicleNumber u) vehicles = None →
  ∃ new,
    updateVehicle u vehicles = vehicles ++ [(Kv6.vehicleNumber u, new)]
    ∧ vehicleNumber new = Kv6.vehicleNumber u
    ∧ lineNumber new = (if truthy (Kv6.lineNumber u) then Kv6.lineNumber u
                        else Str "Unknown")
    ∧ status new = Kv6.type u
    ∧ lastUpdated new = Kv6.timestamp u
    ∧ stopCode new = (if truthy (Kv6.stopCode u) then Kv6.stopCode u
                      else Undefined)
    ∧ latitude new = spread_if_truthy (Kv6.latitude u) None
    ∧ longitude new = spread_if_truthy (Kv6.longitude u) None
    ∧ occupancy new = Kv6.occupancy u
    ∧ punctuality new = Kv6.punctuality u
    ∧ lineName new = Undefined
    ∧ stopName new = Undefined.
Proof.
  intros _ Ht Hn. exists (merge (seed u) u). split.
  - unfold updateVehicle. rewrite Ht, Hn. cbn [negb].
    by apply StateFacts.Map_set_absent.
  - cbn. unfold or_else, spread_if_defined.
    repeat split; try done.
    + by destruct (truthy (Kv6.lineNumber u)).
    + by destruct (Kv6.occupancy u).
    + by destruct (Kv6.punctuality u).
Qed.

(** X10.  The state manager and the terminal view are both subscribed to
    the updates and each applies every event to the store.  For an event
    whose vehicle number is a text the second application changes
    nothing. *)
Theorem updateVehicle_twice u vehicles number :
  Kv6.vehicleNumber u = Str number →
  updateVehicle u (updateVehicle u vehicles) = updateVehicle u vehicles.
Proof.
  intros Hn. unfold updateVehicle. rewrite Hn.
  destruct (truthy (Str number)); cbn [negb]; [|done].
  rewrite Map_get_set_same by apply same_key_text.
  rewrite Map_set_set by apply same_key_text.
  by rewrite merge_merge.
Qed.

Section Clock.
Variable getTime : Date → number.

Local Abbreviation entry_ok e :=
  (vehicleNumber e.2 = e.1 ∧ truthy e.1 = true
   ∧ truthy (lineNumber e.2) = true
   ∧ lineName e.2 = Undefined ∧ stopName e.2 = Undefined).

Local Abbreviation keys_distinct m :=
  (∀ i j e e', m !! i = Some e → m !! j = Some e' →
               same_key e.1 e'.1 = true → i = j).

Lemma lineNumber_merge_truthy st u :
  truthy (lineNumber st) = true → truthy (lineNumber (merge st u)) = true.
Proof.
  intros H. cbn. unfold or_else.
  by destruct (truthy (Kv6.lineNumber u)) eqn:E.
Qed.

Lemma lineNumber_seed_truthy u : truthy (lineNumber (seed u)) = true.
Proof.
  cbn. unfold or_else. by destruct (truthy (Kv6.lineNumber u)) eqn:E.
Qed.

Lemma Map_set_entries (P : value * VehicleState → Prop) k m (f : VehicleState → VehicleState) d :
  Forall P m →
  (∀ k' st, P (k', st) → same_key k k' = true → P (k', f st)) →
  P (k, f d) →
  Forall P (Map_set k (f (default d (Map_get k m))) m).
Proof.
  intros Hm Hf Hd. induction Hm as [|[k0 v0] m H0 Hm IH]; cbn.
  - by constructor.
  - destruct (same_key k k0) eqn:E; cbn.
    + constructor; [by apply Hf|done].
    + constructor; [done|apply IH].
Qed.

Lemma Map_get_lookup k m :
  Map_get k m = None ↔ ∀ i e, m !! i = Some e → same_key k e.1 = false.
Proof.
  induction m as [|[k0 v0] m IH]; cbn.
  - split; [by intros _ i e|done].
  - destruct (same_key k k0) eqn:E.
    + split; [done|]. intros H. specialize (H 0 (k0, v0) eq_refl). cbn in H.
      congruence.
    + rewrite IH. split.
      * intros H [|i] e; cbn; [by intros [= <-]|apply H].
      * intros H i e Hi. by apply (H (S i)).
Qed.

Lemma same_key_sym a b : same_key a b = true → same_key b a = true.
Proof.
  intros H. pose proof (StateFacts.same_key_eq _ _ H) as ->. done.
Qed.

Lemma same_key_false_sym a b : same_key a b = false → same_key b a = false.
Proof.
  intros H. destruct (same_key b a) eqn:E; [|done].
  apply same_key_sym in E. congruence.
Qed.

Lemma distinct_Map_set k v m : distinct m → distinct (Map_set k v m).
Proof.
  induction m as [|[k0 v0] m IH]; cbn; [done|].
  intros [H0 Hm]. destruct (same_key k k0) eqn:E; cbn; [done|].
  split; [|by apply IH].
  rewrite Map_get_set_other; [done|by apply same_key_false_sym].
Qed.

Lemma Map_get_filter_None k (P : value * VehicleState → Prop)
  `{∀ e, Decision (P e)} (m : list (value * VehicleState)) :
  Map_get k m = None → Map_get k (filter P m) = None.
Proof.
  induction m as [|[k0 v0] m IH]; [done|]. intros Hn. cbn [Map_get] in Hn.
  destruct (same_key k k0) eqn:E; [done|].
  rewrite filter_cons. destruct (decide (P (k0, v0))); [|by apply IH].
  cbn [Map_get]. rewrite E. by apply IH.
Qed.

Lemma distinct_filter (P : value * VehicleState → Prop)
  `{∀ e, Decision (P e)} (m : list (value * VehicleState)) :
  distinct m → distinct (filter P m).
Proof.
  induction m as [|[k0 v0] m IH]; [done|].
  intros [H0 Hm]. rewrite filter_cons.
  destruct (decide (P (k0, v0))); [|by apply IH].
  cbn [distinct]. split; [by apply Map_get_filter_None|by apply IH].
Qed.

Lemma distinct_lookup m : distinct m → keys_distinct m.
Proof.
  induction m as [|[k0 v0] m IH]; cbn; [by intros _ i j e e'|].
  intros [H0 Hm] [|i] [|j] e e'; cbn; intros Hi Hj Hs; [done|..].
  - injection Hi as <-. cbn in Hs.
    by rewrite (proj1 (Map_get_lookup _ _) H0 _ _ Hj) in Hs.
  - injection Hj as <-. cbn in Hs. apply same_key_sym in Hs.
    by rewrite (proj1 (Map_get_lookup _ _) H0 _ _ Hi) in Hs.
  - f_equal. by eapply IH.
Qed.

Lemma cleanupStaleVehicles_filter now maxAge (m : list (value * VehicleState)) :
  cleanupStaleVehicles getTime now maxAge m
  = filter (λ e, stale getTime now maxAge e.2 = false) m.
Proof. done. Qed.

Lemma reachable_distinct vehicles : reachable getTime vehicles → distinct vehicles.
Proof.
  induction 1 as [|u m _ IH|now maxAge m _ IH]; [done|..].
  - unfold updateVehicle.
    destruct (truthy (Kv6.vehicleNumber u)); cbn [negb]; [|done].
    by apply distinct_Map_set.
  - rewrite cleanupStaleVehicles_filter. by apply distinct_filter.
Qed.

Lemma reachable_entries vehicles :
  reachable getTime vehicles → Forall (λ e, entry_ok e) vehicles.
Proof.
  induction 1 as [|u m _ IH|now maxAge m _ IH]; [constructor|..].
  - unfold updateVehicle.
    destruct (truthy (Kv6.vehicleNumber u)) eqn:Ht; cbn [negb]; [|done].
    replace (match Map_get (Kv6.vehicleNumber u) m with
             | Some state => state | None => seed u end)
      with (default (seed u) (Map_get (Kv6.vehicleNumber u) m))
      by by destruct (Map_get _ m).
    apply (Map_set_entries (λ e, entry_ok e) _ _ (λ st, merge st u)); [done|..].
    + intros k' st (H1 & H2 & H3 & H4 & H5) _. cbn in *.
      repeat split; try done. by apply (lineNumber_merge_truthy st u).
    + cbn. repeat split; try done. apply (lineNumber_merge_truthy (seed u) u).
      apply lineNumber_seed_truthy.
  - rewrite cleanupStaleVehicles_filter. apply Forall_forall.
    intros e He. apply list_elem_of_filter in He as [_ He].
    revert e He. by apply Forall_forall.
Qed.

(** X11.  In every store the manager can be in - empty at first, then
    written by [updateVehicle] and [cleanupStaleVehicles] only - each entry
    is stored under its own vehicle number, which is truthy; it has a
    truthy line number ('Unknown' at worst) and never a line name or a stop
    name; and no two entries have the same number. *)
Theorem reachable_store_invariant vehicles :
  reachable getTime vehicles →
  Forall (λ e, vehicleNumber e.2 = e.1 ∧ truthy e.1 = true
               ∧ truthy (lineNumber e.2) = true
               ∧ lineName e.2 = Undefined ∧ stopName e.2 = Undefined) vehicles
  ∧ (∀ i j e e', vehicles !! i = Some e → vehicles !! j = Some e' →
                 same_key e.1 e'.1 = true → i = j).
Proof.
  intros H. split; [by apply reachable_entries|].
  by apply distinct_lookup, reachable_distinct.
Qed.

Lemma distinct_cleanup_lookup now maxAge k (m : list (value * VehicleState)) :
  distinct m →
  Map_get k (filter (λ e, stale getTime now maxAge e.2 = false) m)
  = match Map_get k m with
    | Some st => if stale getTime now maxAge st then None else Some st
    | None => None
    end.
Proof.
  induction m as [|[k0 v0] m IH]; [done|]. intros [H0 Hm].
  rewrite filter_cons. cbn [snd Map_get].
  destruct (same_key k k0) eqn:E.
  - apply StateFacts.same_key_eq in E as Ek. subst k0.
    destruct (decide (stale getTime now maxAge v0 = false)) as [Hs|Hs].
    + cbn [Map_get]. by rewrite E, Hs.
    + apply not_false_is_true in Hs. rewrite Hs.
      by apply Map_get_filter_None.
  - destruct (decide (stale getTime now maxAge v0 = false)) as [Hs|Hs].
    + cbn [Map_get]. rewrite E. by apply IH.
    + by apply IH.
Qed.

(** X12.  After a clean-up a vehicle is found exactly when it was there and
    is not stale, and then with the state it had: in every store the
    manager can be in. *)
Theorem cleanupStaleVehicles_lookup vehicles now maxAge k :
  reachable getTime vehicles →
  Map_get k (cleanupStaleVehicles getTime now maxAge vehicles)
  = match Map_get k vehicles with
    | Some st => if stale getTime now maxAge st then None else Some st
    | None => None
    end.
Proof.
  intros H. rewrite cleanupStaleVehicles_filter.
  by apply distinct_cleanup_lookup, reachable_distinct.
Qed.

Lemma is_nan_Prim2SF x : PrimFloat.is_nan x = true → Prim2SF x = S754_nan.
Proof.
  unfold PrimFloat.is_nan. rewrite FloatAxioms.eqb_spec. unfold SFeqb.
  destruct (Prim2SF x) as [s|s| |s m e]; cbn; try done.
  - by destruct s.
  - rewrite Z.compare_refl, Pos.compare_cont_refl. by destruct s.
Qed.

Lemma stale_invalid_date now maxAge st :
  PrimFloat.is_nan (getTime (lastUpdated st)) = true →
  stale getTime now maxAge st = false.
Proof.
  intros H. apply is_nan_Prim2SF in H. unfold stale, ageMinutes.
  rewrite FloatAxioms.ltb_spec, FloatAxioms.div_spec, FloatAxioms.sub_spec, H.
  unfold SFltb, SFcompare, SFdiv, SFsub.
  destruct (Prim2SF now); cbn; by destruct (Prim2SF maxAge).
Qed.

(** X13.  A vehicle whose last event had no readable timestamp (an Invalid
    Date, whose time value is NaN) is never removed by the clean-up,
    whatever the time and the maximum age. *)
Theorem cleanupStaleVehicles_keeps_invalid_dates vehicles now maxAge e :
  e ∈ vehicles →
  PrimFloat.is_nan (getTime (lastUpdated e.2)) = true →
  e ∈ cleanupStaleVehicles getTime now maxAge vehicles.
Proof.
  intros He Hn. rewrite cleanupStaleVehicles_filter.
  apply list_elem_of_filter. split; [|done]. by apply stale_invalid_date.
Qed.

(** X14.  A vehicle removed as stale and seen again starts afresh: what it
    had before (stop code, position, occupancy, punctuality) is gone, and
    its state is the one of a vehicle seen for the first time. *)
Theorem stale_vehicle_starts_afresh vehicles now maxAge u number old :
  reachable getTime vehicles →
  Kv6.vehicleNumber u = Str number →
  truthy (Str number) = true →
  Map_get (Str number) vehicles = Some old →
  stale getTime now maxAge old = true →
  ∃ new,
    Map_get (Str number)
      (updateVehicle u (cleanupStaleVehicles getTime now maxAge vehicles))
    = Some new
    ∧ stopCode new = (if truthy (Kv6.stopCode u) then Kv6.stopCode u
                      else Undefined)
    ∧ latitude new = spread_if_truthy (Kv6.latitude u) None
    ∧ longitude new = spread_if_truthy (Kv6.longitude u) None
    ∧ occupancy new = Kv6.occupancy u
    ∧ punctuality new = Kv6.punctuality u
    ∧ lineNumber new = (if truthy (Kv6.lineNumber u) then Kv6.lineNumber u
                        else Str "Unknown").
Proof.
  intros Hr Hn Ht Hg Hs. exists (merge (seed u) u). split.
  - unfold updateVehicle. rewrite Hn, Ht. cbn [negb].
    rewrite cleanupStaleVehicles_filter.
    rewrite (distinct_cleanup_lookup _ _ _ _ (reachable_distinct _ Hr)).
    rewrite Hg, Hs. by apply Map_get_set_same, same_key_text.
  - cbn. unfold or_else, spread_if_defined.
    repeat split; try done.
    + by destruct (Kv6.occupancy u).
    + by destruct (Kv6.punctuality u).
    + by destruct (truthy (Kv6.lineNumber u)).
Qed.

End Clock.

Lemma sum_status_counts (vs : list VehicleState) :
  sum_list (map (λ ty, length (filter (λ v, status v = ty) vs)) Kv6.values)
  = length vs.
Proof.
  induction vs as [|v vs IH]; [done|].
  cbn [length]. rewrite <- IH. unfold Kv6.values. cbn [map sum_list].
  rewrite !filter_cons.
  destruct (status v); repeat (case_decide; try done); cbn [length]; unfold id; lia.
Qed.

(** X15.  Every vehicle is counted under exactly one status: the counts of
    the nine statuses add up to the total, and the active count is at most
    the total. *)
Theorem getStatusCounts_add_up vehicles :
  let counts := getStatusCounts vehicles in
  sum_list (map (λ ty, default 0 (counts !! Kv6.name ty)) Kv6.values)
  = default 0 (counts !! "total")
  ∧ (default 0 (counts !! "active") ≤ default 0 (counts !! "total"))%nat.
Proof.
  cbn zeta. unfold getStatusCounts.
  rewrite StateFacts.fold_countVehicle_total.
  rewrite (StateFacts.fold_countVehicle_active _ _ 0)
    by by rewrite lookup_insert_eq.
  rewrite lookup_insert_ne, lookup_singleton_eq by done. cbn [default].
  split.
  - generalize (Map_size vehicles) at 1. intros n.
    unfold Map_size. rewrite <- (length_map snd vehicles).
    fold (Map_values vehicles).
    rewrite <- (sum_status_counts (Map_values vehicles)). unfold id. f_equal.
    apply map_ext. intros ty. rewrite StateFacts.fold_countVehicle_status.
    pose proof (StateFacts.name_not_active ty).
    pose proof (StateFacts.name_not_total ty).
    rewrite lookup_insert_ne, lookup_singleton_ne by done.
    by destruct (length (filter _ _)).
  - unfold Map_size, Map_values. cbn [plus].
    etrans; [apply length_filter|]. by rewrite length_map.
Qed.

(** *** The facts at concrete stores *)

Import Samples.

Lemma reachable_A_then_B :
  reachable timeValue (updateVehicle eventB (updateVehicle eventA [])).
Proof. do 2 apply reachable_update. apply reachable_new. Defined.

(** X7: event B, for vehicle 1001, and what is stored for vehicle 2002. *)
Lemma updateVehicle_leaves_other_vehicles_witness :
  Map_get (Str "2002") (updateVehicle eventB (updateVehicle (plainEvent "2002" Kv6.INIT) []))
  = Map_get (Str "2002") (updateVehicle (plainEvent "2002" Kv6.INIT) []).
Proof.
  apply (proj1 (updateVehicle_leaves_other_vehicles eventB
                  (updateVehicle (plainEvent "2002" Kv6.INIT) []))
               (Str "2002")).
  reflexivity.
Defined.

(** X8: event B, for the vehicle of event A, leaves one entry. *)
Lemma updateVehicle_size_witness :
  Map_size (updateVehicle eventB (updateVehicle eventA []))
  = if truthy (Kv6.vehicleNumber eventB)
    then match Map_get (Kv6.vehicleNumber eventB) (updateVehicle eventA []) with
         | Some _ => Map_size (updateVehicle eventA [])
         | None => S (Map_size (updateVehicle eventA []))
         end
    else Map_size (updateVehicle eventA []).
Proof.
  apply (updateVehicle_size eventB (updateVehicle eventA [])). reflexivity.
Defined.

(** X9 at event A and the empty store. *)
Lemma updateVehicle_first_seen_witness :
  ∃ new,
    updateVehicle eventA [] = [(Str "1001", new)]
    ∧ lineNumber new = Str "300" ∧ stopCode new = Str "X"
    ∧ lineName new = Undefined.
Proof.
  destruct (updateVehicle_first_seen eventA [] eq_refl eq_refl eq_refl)
    as (new & H1 & _ & H3 & _ & _ & H6 & _ & _ & _ & _ & H11 & _).
  exists new. repeat split; assumption.
Defined.

(** X10 at event A. *)
Lemma updateVehicle_twice_witness :
  updateVehicle eventA (updateVehicle eventA []) = updateVehicle eventA [].
Proof. exact (updateVehicle_twice eventA [] "1001" eq_refl). Defined.

(** X11 at the store after events A and B. *)
Lemma reachable_store_invariant_witness :
  let store := updateVehicle eventB (updateVehicle eventA []) in
  Forall (λ e, vehicleNumber e.2 = e.1 ∧ truthy e.1 = true
               ∧ truthy (lineNumber e.2) = true
               ∧ lineName e.2 = Undefined ∧ stopName e.2 = Undefined) store
  ∧ (∀ i j e e', store !! i = Some e → store !! j = Some e' →
                 same_key e.1 e'.1 = true → i = j).
Proof. exact (reachable_store_invariant timeValue _ reachable_A_then_B). Defined.

(** X12 at the same store, half an hour later. *)
Lemma cleanupStaleVehicles_lookup_witness :
  Map_get (Str "1001")
    (cleanupStaleVehicles timeValue halfPastTwelve 30%float
       (updateVehicle eventB (updateVehicle eventA [])))
  = match Map_get (Str "1001") (updateVehicle eventB (updateVehicle eventA [])) with
    | Some st => if stale timeValue halfPastTwelve 30%float st then None else Some st
    | None => None
    end.
Proof.
  exact (cleanupStaleVehicles_lookup timeValue _ halfPastTwelve 30%float (Str "1001")
           reachable_A_then_B).
Defined.

(** X13 at the store of an event without timestamp. *)
Lemma cleanupStaleVehicles_keeps_invalid_dates_witness :
  (Str "3003", merge (seed undated) undated)
  ∈ cleanupStaleVehicles timeValue halfPastTwelve 30%float (updateVehicle undated []).
Proof.
  apply (cleanupStaleVehicles_keeps_invalid_dates timeValue
           (updateVehicle undated []) halfPastTwelve 30%float
           (Str "3003", merge (seed undated) undated)).
  - apply elem_of_cons. left. reflexivity.
  - reflexivity.
Defined.

(** X14: vehicle 1001 had the stop code X at 12:00 and is seen again after
    the clean-up of 12:31. *)
Lemma stale_vehicle_starts_afresh_witness :
  ∃ new,
    Map_get (Str "1001")
      (updateVehicle eventB
         (cleanupStaleVehicles timeValue halfPastTwelve 30%float
            (updateVehicle eventA [])))
    = Some new
    ∧ stopCode new = Undefined.
Proof.
  destruct (stale_vehicle_starts_afresh timeValue (updateVehicle eventA [])
              halfPastTwelve 30%float eventB "1001" (merge (seed eventA) eventA))
    as (new & H1 & H2 & _).
  - apply reachable_update, reachable_new.
  - reflexivity.
  - reflexivity.
  - reflexivity.
  - vm_compute. reflexivity.
  - exists new. split; assumption.
Defined.

End StateMoreFacts.

(* ===================================================================== *)
(** ** More facts: the event bus and the SSE clients *)
(* ===================================================================== *)

Module DistributorMoreFacts.
Import JS EventBus ApiServer.
Local Open Scope list_scope.

Lemma callListeners_app_abrupt {Data World} (pre post : list (@listener Data World))
  data w e w1 :
  callListeners pre data w = Abrupt e w1 →
  callListeners (pre ++ post) data w = Abrupt e w1.
Proof.
  revert w. induction pre as [|l0 ls IH]; intros w E; [done|].
  cbn in *. destruct (l0 data w) as [[] w'|e' w']; [|done]. by apply IH.
Qed.

(** X16.  Subscribers are called in the order of their registration: a
    subscriber added with [on] runs after those already there, and only
    when all of them returned; it is not called for any other event. *)
Theorem emit_calls_in_registration_order {Data World : Type}
  (bus : @TypedEventEmitter Data World) event l data w :
  emit event data (on event l bus) w
  = match callListeners (bus event) data w with
    | Normal _ w1 =>
        match l data w1 with
        | Normal _ w2 => Normal true w2
        | Abrupt e w2 => Abrupt e w2
        end
    | Abrupt e w1 => Abrupt e w1
    end
  ∧ ∀ other, other ≠ event →
      emit other data (on event l bus) w = emit other data bus w.
Proof.
  split.
  - unfold emit, on. rewrite decide_True by done.
    destruct (callListeners (bus event) data w) as [[] w1|e w1] eqn:E.
    + rewrite (DistributorFacts.callListeners_app _ [l] _ _ _ E).
      cbn. destruct (l data w1) as [[] w2|e w2]; [|done].
      by destruct (bus event).
    + by rewrite (callListeners_app_abrupt _ [l] _ _ _ _ E).
  - intros other Ho. unfold emit, on. by rewrite decide_False by done.
Qed.

Lemma deleteAll_nil (clients : list client) : deleteAll [] clients = clients.
Proof.
  unfold deleteAll. induction clients as [|c cs IH]; [done|].
  rewrite filter_cons, decide_True by apply not_elem_of_nil. by rewrite IH.
Qed.

Lemma forClients_healthy clients m w d data :
  Forall (λ c, ∀ t s, throws c t s = false) clients →
  stringify m = Returns data →
  forClients clients m w d
  = (w ++ concat (map (λ c, (cid c,.) <$> chunks m data) clients), d).
Proof.
  intros Hc Hs. revert w. induction Hc as [|c cs H _ IH]; intros w; cbn.
  - by rewrite app_nil_r.
  - rewrite (DistributorFacts.send_never_throwing c m w data H Hs).
    rewrite IH. by rewrite <- app_assoc.
Qed.

(** X17.  When no write throws and the payload can be serialised, a
    broadcast writes to every client, in the order of the set, its event
    line and its data line, and the set stays as it is. *)
Theorem broadcastSSE_to_healthy_clients clients m w data :
  Forall (λ c, ∀ t s, throws c t s = false) clients →
  stringify m = Returns data →
  broadcastSSE clients m w
  = (w ++ concat (map (λ c, (cid c,.) <$> chunks m data) clients), clients).
Proof.
  intros Hc Hs. unfold broadcastSSE. destruct clients as [|c cs].
  - cbn. by rewrite app_nil_r.
  - rewrite (forClients_healthy _ _ _ _ data Hc Hs). by rewrite deleteAll_nil.
Qed.

Lemma send_unserialisable c m w e :
  stringify m = Throws e →
  ∃ e' t, send c m w = Abrupt e' (w ++ t)
          ∧ Forall (λ x, x.2 = "event: " ++ mtype m ++ String "010" "")%string t.
Proof.
  intros Hs. unfold send, write. rewrite Hs.
  destruct (truthy (Str (mtype m))).
  - destruct (throws c w _).
    + exists (Thrown "write"), []. by rewrite app_nil_r.
    + exists e, [(cid c, ("event: " ++ mtype m ++ String "010" "")%string)].
      split; [done|]. by repeat constructor.
  - exists e, []. by rewrite app_nil_r.
Qed.

Lemma forClients_unserialisable clients m w d e :
  stringify m = Throws e →
  ∃ t, forClients clients m w d = (w ++ t, d ++ (cid <$> clients))
       ∧ Forall (λ x, x.2 = "event: " ++ mtype m ++ String "010" "")%string t.
Proof.
  intros Hs. revert w d. induction clients as [|c cs IH]; intros w d; cbn.
  - exists []. by rewrite !app_nil_r.
  - destruct (send_unserialisable c m w e Hs) as (e' & t & -> & Ht).
    destruct (IH (w ++ t) (d ++ [cid c])) as (t' & -> & Ht').
    exists (t ++ t'). rewrite <- !app_assoc. split; [done|].
    by apply Forall_app.
Qed.

Lemma deleteAll_all (clients : list client) d :
  (∀ c, c ∈ clients → cid c ∈ d) → deleteAll d clients = [].
Proof.
  intros H. unfold deleteAll. induction clients as [|c cs IH]; [done|].
  rewrite filter_cons, decide_False.
  - apply IH. intros c' Hc'. apply H. apply elem_of_cons. by right.
  - intros Hn. apply Hn, H. apply elem_of_cons. by left.
Qed.

(** X18.  A payload that cannot be serialised costs every client its
    place: each is sent at most its event line, and after the broadcast the
    set is empty. *)
Theorem broadcastSSE_unserialisable_drops_every_client clients m w e :
  stringify m = Throws e →
  (broadcastSSE clients m w).2 = []
  ∧ ∃ t, (broadcastSSE clients m w).1 = w ++ t
         ∧ Forall (λ x, x.2 = "event: " ++ mtype m ++ String "010" "")%string t.
Proof.
  intros Hs. unfold broadcastSSE. destruct clients as [|c cs].
  - split; [done|]. exists []. by rewrite app_nil_r.
  - destruct (forClients_unserialisable (c :: cs) m w [] e Hs) as (t & -> & Ht).
    cbn [fst snd]. split; [|by exists t].
    apply deleteAll_all. intros c' Hc'. rewrite app_nil_l.
    by apply list_elem_of_fmap_2.
Qed.

Lemma send_always_throwing c m w :
  (∀ t s, throws c t s = true) → ∃ e, send c m w = Abrupt e w.
Proof.
  intros H. unfold send, write.
  destruct (truthy (Str (mtype m))).
  - rewrite H. by eexists.
  - destruct (stringify m); [rewrite H|]; by eexists.
Qed.

Lemma send_writes_to_client c m w :
  ∃ t, match send c m w with Normal _ w' | Abrupt _ w' => w' = w ++ t end
       ∧ Forall (λ x, x.1 = cid c) t.
Proof.
  unfold send, write.
  destruct (truthy (Str (mtype m))).
  - destruct (throws c w _).
    + exists []. by rewrite app_nil_r.
    + destruct (stringify m) as [data|e].
      * destruct (throws c _ _).
        -- eexists [_]. split; [done|]. by repeat constructor.
        -- eexists [_; _]. rewrite <- app_assoc. split; [done|].
           by repeat constructor.
      * eexists [_]. split; [done|]. by repeat constructor.
  - destruct (stringify m) as [data|e].
    + destruct (throws c _ _).
      * exists []. by rewrite app_nil_r.
      * eexists [_]. split; [done|]. by repeat constructor.
    + exists []. by rewrite app_nil_r.
Qed.

Lemma forClients_failing clients m w d c :
  (∀ t s, throws c t s = true) →
  c ∈ clients →
  NoDup (cid <$> clients) →
  cid c ∈ (forClients clients m w d).2
  ∧ ∃ t, (forClients clients m w d).1 = w ++ t
         ∧ Forall (λ x, x.1 ≠ cid c) t.
Proof.
  intros Hc Hin Hnd. revert w d.
  assert (Hkeep : ∀ cs w d, cid c ∈ d → cid c ∈ (forClients cs m w d).2).
  { induction cs as [|x cs IH]; intros w d Hd; cbn; [done|].
    destruct (send x m w); apply IH; [done|].
    apply elem_of_app. by left. }
  assert (Hother : ∀ cs w d, cid c ∉ cid <$> cs →
            ∃ t, (forClients cs m w d).1 = w ++ t
                 ∧ Forall (λ x, x.1 ≠ cid c) t).
  { induction cs as [|x cs IH]; intros w d Hn; cbn.
    - exists []. by rewrite app_nil_r.
    - rewrite fmap_cons, not_elem_of_cons in Hn. destruct Hn as [Hx Hn].
      destruct (send_writes_to_client x m w) as (t & Ht & Hcid).
      assert (Ht' : Forall (λ y, y.1 ≠ cid c) t).
      { eapply Forall_impl; [exact Hcid|]. intros y Hy. cbn in Hy. congruence. }
      destruct (send x m w) as [[] w'|e w']; subst w'.
      + destruct (IH (w ++ t) d Hn) as (t' & -> & Ht2).
        exists (t ++ t'). rewrite <- app_assoc. split; [done|]. by apply Forall_app.
      + destruct (IH (w ++ t) (d ++ [cid x]) Hn) as (t' & -> & Ht2).
        exists (t ++ t'). rewrite <- app_assoc. split; [done|]. by apply Forall_app. }
  induction clients as [|x cs IH]; intros w d; [by apply elem_of_nil in Hin|].
  rewrite fmap_cons in Hnd. apply NoDup_cons in Hnd as [Hx Hnd].
  apply elem_of_cons in Hin as [<-|Hin]; cbn.
  - destruct (send_always_throwing c m w Hc) as (e & ->).
    split.
    + apply Hkeep. apply elem_of_app. right. apply elem_of_cons. by left.
    + by apply Hother.
  - assert (Hne : cid x ≠ cid c).
    { intros Heq. apply Hx. rewrite Heq. by apply list_elem_of_fmap_2. }
    destruct (send_writes_to_client x m w) as (t & Ht & Hcid).
    assert (Ht' : Forall (λ y, y.1 ≠ cid c) t).
    { eapply Forall_impl; [exact Hcid|]. intros y Hy. cbn in Hy. congruence. }
    destruct (send x m w) as [[] w'|e w']; subst w'.
    + destruct (IH Hin Hnd (w ++ t) d) as (H1 & t' & -> & Ht2).
      split; [done|]. exists (t ++ t'). rewrite <- app_assoc.
      split; [done|]. by apply Forall_app.
    + destruct (IH Hin Hnd (w ++ t) (d ++ [cid x])) as (H1 & t' & -> & Ht2).
      split; [done|]. exists (t ++ t'). rewrite <- app_assoc.
      split; [done|]. by apply Forall_app.
Qed.

(** X19.  A client whose every write throws is sent nothing by a broadcast
    and is no longer in the set afterwards. *)
Theorem broadcastSSE_removes_failing_client clients m w c :
  (∀ t s, throws c t s = true) →
  c ∈ clients →
  NoDup (cid <$> clients) →
  (c ∉ (broadcastSSE clients m w).2)
  ∧ ∃ t, (broadcastSSE clients m w).1 = w ++ t
         ∧ Forall (λ x, x.1 ≠ cid c) t.
Proof.
  intros Hc Hin Hnd. unfold broadcastSSE.
  destruct clients as [|x cs]; [by apply elem_of_nil in Hin|].
  destruct (forClients_failing (x :: cs) m w [] c Hc Hin Hnd) as (H1 & H2).
  destruct (forClients (x :: cs) m w []) as [w' d]. cbn [fst snd] in *.
  split; [|done]. unfold deleteAll. intros Hd.
  apply list_elem_of_filter in Hd as [Hd _]. by apply Hd.
Qed.

Lemma deleteAll_other (clients : list client) i x :
  cid x ≠ i → x ∈ deleteAll [i] clients ↔ x ∈ clients.
Proof.
  intros Hx. unfold deleteAll. rewrite list_elem_of_filter.
  split; [by intros [_ ?]|]. intros H. split; [|done].
  intros Hi. apply elem_of_cons in Hi as [Hi|Hi]; [done|].
  by apply elem_of_nil in Hi.
Qed.

Lemma deleteAll_self (clients : list client) c : c ∉ deleteAll [cid c] clients.
Proof.
  unfold deleteAll. rewrite list_elem_of_filter. intros [H _]. apply H.
  apply elem_of_cons. by left.
Qed.

(** X20.  A response that opens the stream is in the set afterwards
    exactly when both opening messages were sent without exception; the
    clients already there stay.  (The second message is sent even when the
    first one failed and removed the client.) *)
Theorem stream_registers_client c welcome vehicles clients w :
  cid c ∉ cid <$> clients →
  (c ∈ (stream c welcome vehicles clients w).2
   ↔ ∃ w1 w2, send c (connected welcome) w = Normal tt w1
              ∧ send c (initial_data vehicles) w1 = Normal tt w2)
  ∧ (∀ x, x ∈ clients → x ∈ (stream c welcome vehicles clients w).2).
Proof.
  intros Hnew. unfold stream, add, sendSSEMessage.
  rewrite bool_decide_eq_false_2 by done.
  assert (Hother : ∀ x, x ∈ clients → cid x ≠ cid c).
  { intros x Hx Heq. apply Hnew. rewrite <- Heq. by apply list_elem_of_fmap_2. }
  assert (Hc : c ∈ clients ++ [c]).
  { apply elem_of_app. right. apply elem_of_cons. by left. }
  destruct (send c (connected welcome) w) as [[] w1|e1 w1] eqn:E1;
    destruct (send c (initial_data vehicles) w1) as [[] w2|e2 w2] eqn:E2;
    cbn [snd]; split.
  - split; [intros _; by exists w1, w2|done].
  - intros x Hx. apply elem_of_app. by left.
  - split; [by intros ?%deleteAll_self|].
    intros (w0 & w3 & [= <-] & H). congruence.
  - intros x Hx. apply deleteAll_other; [by apply Hother|].
    apply elem_of_app. by left.
  - split; [by intros ?%deleteAll_self|]. by intros (? & ? & ? & _).
  - intros x Hx. apply deleteAll_other; [by apply Hother|].
    apply elem_of_app. by left.
  - split; [by intros ?%deleteAll_self|]. by intros (? & ? & ? & _).
  - intros x Hx. apply deleteAll_other; [by apply Hother|].
    apply deleteAll_other; [by apply Hother|].
    apply elem_of_app. by left.
Qed.

(** *** The facts at concrete clients *)

Import Samples.

(** X17 at the healthy client alone. *)
Lemma broadcastSSE_to_healthy_clients_witness :
  broadcastSSE [healthyClient] vehicleUpdate []
  = ([] ++ concat (map (λ c, (cid c,.) <$> chunks vehicleUpdate "{}")
                       [healthyClient]),
     [healthyClient]).
Proof.
  apply (broadcastSSE_to_healthy_clients [healthyClient] vehicleUpdate [] "{}").
  - constructor; [intros t s; reflexivity|constructor].
  - reflexivity.
Defined.

(** X18 at the broken and the healthy client. *)
Lemma broadcastSSE_unserialisable_drops_every_client_witness :
  (broadcastSSE [brokenClient; healthyClient] unserialisable []).2 = []
  ∧ ∃ t, (broadcastSSE [brokenClient; healthyClient] unserialisable []).1
         = [] ++ t
         ∧ Forall (λ x, x.2 = "event: " ++ mtype unserialisable
                                ++ String "010" "")%string t.
Proof.
  apply (broadcastSSE_unserialisable_drops_every_client
           [brokenClient; healthyClient] unserialisable [] TypeError).
  reflexivity.
Defined.

(** X19 at the broken client, registered before the healthy one. *)
Lemma broadcastSSE_removes_failing_client_witness :
  (brokenClient ∉ (broadcastSSE [brokenClient; healthyClient] vehicleUpdate []).2)
  ∧ ∃ t, (broadcastSSE [brokenClient; healthyClient] vehicleUpdate []).1
         = [] ++ t
         ∧ Forall (λ x, x.1 ≠ cid brokenClient) t.
Proof.
  apply (broadcastSSE_removes_failing_client
           [brokenClient; healthyClient] vehicleUpdate [] brokenClient).
  - intros t s. reflexivity.
  - left.
  - compute_done.
Defined.

(** X20 at the healthy client opening the first stream. *)
Lemma stream_registers_client_witness :
  (healthyClient ∈ (stream healthyClient (Returns "{}") (Returns "{}") [] []).2
   ↔ ∃ w1 w2, send healthyClient (connected (Returns "{}")) [] = Normal tt w1
              ∧ send healthyClient (initial_data (Returns "{}")) w1
                = Normal tt w2)
  ∧ (∀ x, x ∈ [] →
          x ∈ (stream healthyClient (Returns "{}") (Returns "{}") [] []).2).
Proof.
  apply (stream_registers_client healthyClient (Returns "{}") (Returns "{}")
           [] []).
  apply not_elem_of_nil.
Defined.

End DistributorMoreFacts.

(* ===================================================================== *)
(** ** More facts: the connector *)
(* ===================================================================== *)

Module ConnectorMoreFacts.
Import JS Connector.
Local Open Scope list_scope.

Lemma split_no_sep sep s :
  Forall (λ piece, forallb (λ c, negb (Ascii.eqb c sep))
                     (list_ascii_of_string piece) = true) (split sep s).
Proof.
  induction s as [|c rest IH]; cbn [split].
  - by repeat constructor.
  - destruct (Ascii.eqb c sep) eqn:E.
    + by constructor.
    + destruct (split sep rest) as [|piece pieces].
      * constructor; [|done]. cbn [list_ascii_of_string forallb]. by rewrite E.
      * apply Forall_cons in IH as [H1 H2]. constructor; [|done].
        cbn [list_ascii_of_string forallb]. by rewrite E, H1.
Qed.

Lemma split_without_sep sep s :
  forallb (λ c, negb (Ascii.eqb c sep)) (list_ascii_of_string s) = true →
  split sep s = [s].
Proof.
  induction s as [|c rest IH]; cbn [split list_ascii_of_string forallb]; [done|].
  intros [Hc Hr]%andb_prop. apply negb_true_iff in Hc. rewrite Hc.
  by rewrite (IH Hr).
Qed.

Lemma split_piece sep piece rest :
  forallb (λ c, negb (Ascii.eqb c sep)) (list_ascii_of_string piece) = true →
  split sep (piece ++ String sep rest)%string = piece :: split sep rest.
Proof.
  induction piece as [|c piece IH].
  - intros _. change (split sep (String sep rest) = "" :: split sep rest).
    cbn [split]. by rewrite Ascii.eqb_refl.
  - cbn [list_ascii_of_string forallb].
    intros [Hc Hr]%andb_prop. apply negb_true_iff in Hc.
    change (split sep (String c (piece ++ String sep rest)%string)
            = String c piece :: split sep rest).
    cbn [split]. by rewrite Hc, (IH Hr).
Qed.

(** X21.  The operator the connector takes from its topic is never empty
    and holds no slash; it is the text between the first two slashes when
    that is not empty (also when no second slash follows), and ARR for a
    topic without slash. *)
Theorem operatorOf_topic :
  (∀ topic, operatorOf topic ≠ "" ∧ no_slash (operatorOf topic) = true)
  ∧ (∀ family op rest,
       no_slash family = true → no_slash op = true → op ≠ "" →
       operatorOf (family ++ "/" ++ op ++ "/" ++ rest) = op
       ∧ operatorOf (family ++ "/" ++ op) = op)
  ∧ (∀ topic, no_slash topic = true → operatorOf topic = "ARR").
Proof.
  split; [|split].
  - intros topic. unfold operatorOf.
    pose proof (split_no_sep "/" topic) as Hs.
    destruct (split "/" topic !! 1) as [piece|] eqn:E; [|done].
    destruct piece as [|c piece]; [done|]. cbn [truthy]. split; [done|].
    eapply Forall_lookup_1 in Hs; [|exact E]. exact Hs.
  - intros family op rest Hf Ho Hne. unfold operatorOf. split.
    + change (family ++ "/" ++ op ++ "/" ++ rest)%string
        with (family ++ String "/" (op ++ String "/" rest))%string.
      rewrite (split_piece "/" family _ Hf), (split_piece "/" op _ Ho).
      cbn [lookup list_lookup]. by destruct op.
    + change (family ++ "/" ++ op)%string
        with (family ++ String "/" op)%string.
      rewrite (split_piece "/" family _ Hf), (split_without_sep "/" op Ho).
      cbn [lookup list_lookup]. by destruct op.
  - intros topic Ht. unfold operatorOf. by rewrite (split_without_sep "/" topic Ht).
Qed.

Section Facts.
Variable gunzipAsync inflateAsync : Buffer → outcome Buffer.
Variable utf8 : Buffer → text.
Variable convertRdToWgs84 : number → number → Parser.conversion.
Variable parseStringPromise : text → outcome value.

Lemma emitEach_app {World} (bus : @EventBus.TypedEventEmitter payload World)
  pre post w w1 :
  emitEach bus pre w = Normal tt w1 →
  emitEach bus (pre ++ post) w = emitEach bus post w1.
Proof.
  revert w. induction pre as [|m pre IH]; intros w; cbn.
  - by intros [= ->].
  - destruct (EventBus.emit _ _ _ _) as [b w'|e w']; [|done]. apply IH.
Qed.

(** X22.  When a subscriber throws on an event of a frame, the events that
    follow it in the same frame are not emitted: the turn ends in the
    world the failing [emit] left, and the loop goes on from there. *)
Theorem frame_is_cut_at_failing_event {World}
  (bus : @EventBus.TypedEventEmitter payload World)
  topic operator topicBuffer contentBuffer contentStr pre message post
  w w1 w2 e :
  utf8 topicBuffer = units topic →
  decodeContent gunzipAsync inflateAsync utf8 contentBuffer = Returns contentStr →
  Parser.parseXml convertRdToWgs84 parseStringPromise contentStr operator
  = pre ++ message :: post →
  emitEach bus pre w = Normal tt w1 →
  EventBus.emit EventBus.KV6_UPDATE (Update message) bus w1 = Abrupt e w2 →
  processFrame gunzipAsync inflateAsync utf8 convertRdToWgs84
    parseStringPromise bus topic operator
    (Returns (topicBuffer, contentBuffer)) w
  = Abrupt e w2
  ∧ turn gunzipAsync inflateAsync utf8 convertRdToWgs84
      parseStringPromise bus topic operator
      (Returns (topicBuffer, contentBuffer)) w
    = w2.
Proof.
  intros Ht Hd Hp Hpre He.
  assert (processFrame gunzipAsync inflateAsync utf8 convertRdToWgs84
            parseStringPromise bus topic operator
            (Returns (topicBuffer, contentBuffer)) w
          = Abrupt e w2) as Hf.
  { unfold processFrame. rewrite bool_decide_eq_true_2 by done. cbn [negb].
    rewrite Hd, Hp, (emitEach_app _ _ _ _ _ Hpre). cbn [emitEach].
    by rewrite He. }
  split; [done|]. unfold turn. by rewrite Hf.
Qed.

Lemma updateVehicle_twice_textual u vehicles :
  State.textual (Kv6.vehicleNumber u) = true →
  State.updateVehicle u (State.updateVehicle u vehicles)
  = State.updateVehicle u vehicles.
Proof.
  intros Ht. unfold State.updateVehicle.
  destruct (Kv6.vehicleNumber u) as [|number| |] eqn:Hn; try done.
  destruct (truthy (Str number)); cbn [negb]; [|done].
  rewrite StateMoreFacts.Map_get_set_same by apply StateMoreFacts.same_key_text.
  rewrite StateMoreFacts.Map_set_set by apply StateMoreFacts.same_key_text.
  by rewrite StateMoreFacts.merge_merge.
Qed.

Lemma emitEach_terminalBus events vehicles :
  Forall (λ e, State.textual (Kv6.vehicleNumber e) = true) events →
  emitEach terminalBus events vehicles
  = Normal tt (fold_left (λ m e, State.updateVehicle e m) events vehicles).
Proof.
  intros H. revert vehicles. induction H as [|u us Hu _ IH]; intros m; [done|].
  cbn [emitEach fold_left].
  replace (EventBus.emit EventBus.KV6_UPDATE (Update u) terminalBus m)
    with (Normal (W:=State.Map) true
            (State.updateVehicle u (State.updateVehicle u m))) by done.
  rewrite updateVehicle_twice_textual by done. apply IH.
Qed.

(** X23.  In the terminal application a frame on the connector's topic
    ends up in the store as its events applied one after the other, in the
    order the parser returned them, each once - although the state manager
    and the terminal view both apply every event - as long as the vehicle
    numbers are texts.  A frame on another topic leaves the store as it
    is. *)
Theorem frame_reaches_the_store topic operator topicBuffer contentBuffer
  contentStr vehicles :
  decodeContent gunzipAsync inflateAsync utf8 contentBuffer = Returns contentStr →
  Forall (λ e, State.textual (Kv6.vehicleNumber e) = true)
    (Parser.parseXml convertRdToWgs84 parseStringPromise contentStr operator) →
  turn gunzipAsync inflateAsync utf8 convertRdToWgs84 parseStringPromise
    terminalBus topic operator (Returns (topicBuffer, contentBuffer)) vehicles
  = if bool_decide (utf8 topicBuffer = units topic)
    then fold_left (λ m e, State.updateVehicle e m)
           (Parser.parseXml convertRdToWgs84 parseStringPromise
              contentStr operator) vehicles
    else vehicles.
Proof.
  intros Hd Ht. unfold turn, processFrame.
  destruct (bool_decide (utf8 topicBuffer = units topic)); cbn [negb]; [|done].
  by rewrite Hd, emitEach_terminalBus.
Qed.

Lemma find_Some_holds {A} (f : A → bool) l x : List.find f l = Some x → f x = true.
Proof.
  induction l as [|y l IH]; cbn; [done|].
  destruct (f y) eqn:E; [by intros [= <-]|done].
Qed.

(** X24.  A buffer that starts with neither the gzip nor a zlib header is
    decoded to a text that holds one of the markers, or else to its latin1
    text: nothing is cut from it. *)
Theorem headerless_buffer_is_decoded_whole buffer :
  byte_is buffer 0 31 && byte_is buffer 1 139 = false →
  byte_is buffer 0 120
  && (byte_is buffer 1 1 || byte_is buffer 1 156 || byte_is buffer 1 218)
  = false →
  ∃ decoded,
    decodeContent gunzipAsync inflateAsync utf8 buffer = Returns decoded
    ∧ (looksLikeXml decoded = true ∨ decoded = latin1 buffer)
    ∧ (decoded = latin1 buffer ∨ decoded = utf8 buffer
       ∨ decoded = ascii7 buffer
       ∨ ∃ inflated, inflateAsync buffer = Returns inflated
                     ∧ decoded = utf8 inflated).
Proof.
  intros Hg Hz. unfold decodeContent, decodeBody. rewrite Hg, Hz.
  destruct (blindInflate inflateAsync utf8 buffer) as [decoded|] eqn:Eb.
  - exists decoded. split; [done|]. unfold blindInflate in Eb.
    destruct (inflateAsync buffer) as [inflated|]; [|done].
    destruct (looksLikeXml (utf8 inflated)) eqn:El; [|done].
    injection Eb as <-. split; [by left|].
    right; right; right. by exists inflated.
  - destruct (tryEncodings utf8 buffer) as [decoded|] eqn:Ee.
    + exists decoded. split; [done|]. split.
      * left. by apply find_Some_holds in Ee.
      * unfold tryEncodings in Ee. cbn in Ee.
        destruct (looksLikeXml (utf8 buffer)); [injection Ee as <-; auto|].
        destruct (looksLikeXml (latin1 buffer)); [injection Ee as <-; auto|].
        destruct (looksLikeXml (ascii7 buffer)); [injection Ee as <-; auto|done].
    + exists (latin1 buffer).
      rewrite ConnectorFacts.fallback_without_marker
        by by apply (ConnectorFacts.tryEncodings_None utf8).
      split; [done|]. split; [by right|by left].
Qed.

End Facts.

(** *** The facts at concrete frames *)

Import Samples.

(** X21 at the topic of the feed. *)
Lemma operatorOf_topic_witness :
  operatorOf ("" ++ "/" ++ "ARR" ++ "/" ++ "KV6posinfo") = "ARR"
  ∧ operatorOf ("" ++ "/" ++ "ARR") = "ARR".
Proof.
  apply (proj1 (proj2 operatorOf_topic) "" "ARR" "KV6posinfo").
  - reflexivity.
  - reflexivity.
  - discriminate.
Defined.

(** X22: a DEPARTURE followed by an ARRIVAL, with a subscriber that throws
    behind the state manager's; the ARRIVAL, which comes first, is stored,
    the DEPARTURE is never emitted. *)
Lemma frame_is_cut_at_failing_event_witness :
  let first := numberOnly "2002" Kv6.ARRIVAL in
  processFrame rejecting rejecting utf8OfAscii referenceConverter
    (pushed departureThenArrivalText departureThenArrival)
    storeThenRefusing feedTopic "ARR"
    (frame (pushText departureThenArrivalText)) []
  = Abrupt (Thrown "subscriber failed") (State.updateVehicle first [])
  ∧ turn rejecting rejecting utf8OfAscii referenceConverter
      (pushed departureThenArrivalText departureThenArrival)
      storeThenRefusing feedTopic "ARR"
      (frame (pushText departureThenArrivalText)) []
    = State.updateVehicle first [].
Proof.
  apply (frame_is_cut_at_failing_event rejecting rejecting utf8OfAscii
           referenceConverter
           (pushed departureThenArrivalText departureThenArrival)
           storeThenRefusing feedTopic "ARR"
           (list_byte_of_string feedTopic)
           (list_byte_of_string (pushText departureThenArrivalText))
           (units (pushText departureThenArrivalText))
           []
           (numberOnly "2002" Kv6.ARRIVAL)
           [numberOnly "1001" Kv6.DEPARTURE]
           [] []).
  - reflexivity.
  - reflexivity.
  - reflexivity.
  - reflexivity.
  - reflexivity.
Defined.

(** X23 at a frame with the message at the projection's origin. *)
Lemma frame_reaches_the_store_witness :
  turn rejecting rejecting utf8OfAscii referenceConverter
    (pushed atOriginText [("ARRIVAL", atOrigin)])
    terminalBus feedTopic "ARR" (frame (pushText atOriginText)) []
  = if bool_decide (utf8OfAscii (list_byte_of_string feedTopic) = units feedTopic)
    then fold_left (λ m e, State.updateVehicle e m)
           (Parser.parseXml referenceConverter
              (pushed atOriginText [("ARRIVAL", atOrigin)])
              (units (pushText atOriginText)) "ARR") []
    else [].
Proof.
  apply (frame_reaches_the_store rejecting rejecting utf8OfAscii
           referenceConverter (pushed atOriginText [("ARRIVAL", atOrigin)])
           feedTopic "ARR" (list_byte_of_string feedTopic)
           (list_byte_of_string (pushText atOriginText))
           (units (pushText atOriginText)) []).
  - reflexivity.
  - repeat constructor.
Defined.

(** X24 at a buffer without marker. *)
Lemma headerless_buffer_is_decoded_whole_witness :
  ∃ decoded,
    decodeContent rejecting rejecting utf8OfAscii noMarker = Returns decoded
    ∧ (looksLikeXml decoded = true ∨ decoded = latin1 noMarker)
    ∧ (decoded = latin1 noMarker ∨ decoded = utf8OfAscii noMarker
       ∨ decoded = ascii7 noMarker
       ∨ ∃ inflated, rejecting noMarker = Returns inflated
                     ∧ decoded = utf8OfAscii inflated).
Proof.
  apply (headerless_buffer_is_decoded_whole rejecting rejecting utf8OfAscii
           noMarker).
  - reflexivity.
  - reflexivity.
Defined.

End ConnectorMoreFacts.
